(** * Ludo session server (server.js): shallow embedding and properties

    The per-room state of [server.js] is modelled as a [Room] record. Each
    websocket message handler becomes a function [Room -> option (Room * list Out)]:
    [None] stands for an uncaught JavaScript exception, [Some (r', outs)] for the
    new room object and the messages sent, in order.

    Players are identified by their [id] (drawn by [makeId] at join time); a
    connection's [currentPlayer] object is the player of the room carrying the
    connection's id. JavaScript numbers that are always integers here are [Z];
    the value [NaN] (produced by [COLOR_START[color]] for an unknown color) is
    [None] in [jsnum]. The die drawn by [Math.random] is an argument of the
    roll handler. *)

From Stdlib Require Import ZArith String.
From stdpp Require Import base list strings pretty gmap.

Open Scope Z_scope.

(** ** Data model *)

Record Player := mkPlayer {
  id : string;
  name : string;
  color : option string;   (* [None]: the [undefined] color of a fifth joiner *)
  ready : bool;
  positions : list Z
}.

Record Room := mkRoom {
  room_id : string;
  players : list Player;
  turnIndex : nat;
  currentRoll : Z;
  consecutiveSixes : nat;
  gameStarted : bool
}.

Definition set_positions (ps : list Z) (p : Player) : Player :=
  mkPlayer (id p) (name p) (color p) (ready p) ps.
Definition set_ready (b : bool) (p : Player) : Player :=
  mkPlayer (id p) (name p) (color p) b (positions p).

Definition set_players (ps : list Player) (r : Room) : Room :=
  mkRoom (room_id r) ps (turnIndex r) (currentRoll r) (consecutiveSixes r) (gameStarted r).
Definition set_turnIndex (t : nat) (r : Room) : Room :=
  mkRoom (room_id r) (players r) t (currentRoll r) (consecutiveSixes r) (gameStarted r).
Definition set_currentRoll (c : Z) (r : Room) : Room :=
  mkRoom (room_id r) (players r) (turnIndex r) c (consecutiveSixes r) (gameStarted r).
Definition set_consecutiveSixes (n : nat) (r : Room) : Room :=
  mkRoom (room_id r) (players r) (turnIndex r) (currentRoll r) n (gameStarted r).
Definition set_gameStarted (b : bool) (r : Room) : Room :=
  mkRoom (room_id r) (players r) (turnIndex r) (currentRoll r) (consecutiveSixes r) b.

(** A JavaScript number that may be [NaN] ([None]). *)
Definition jsnum := option Z.

(** [===] on numbers: [NaN] equals nothing. *)
Definition num_eqb (a b : jsnum) : bool :=
  match a, b with
  | Some x, Some y => Z.eqb x y
  | _, _ => false
  end.

Definition SAFE_INDICES : list Z := [0; 8; 13; 21; 26; 34; 39; 47].

(** [SAFE_INDICES.includes(x)] *)
Definition safe_includes (x : jsnum) : bool :=
  match x with
  | Some v => existsb (Z.eqb v) SAFE_INDICES
  | None => false
  end.

Definition COLOR_START (c : option string) : option Z :=
  match c with
  | Some "red"%string => Some 0
  | Some "green"%string => Some 13
  | Some "yellow"%string => Some 26
  | Some "blue"%string => Some 39
  | _ => None
  end.

Definition colorOffset (c : option string) : option Z :=
  match c with
  | Some "red"%string => Some 0
  | Some "green"%string => Some 10
  | Some "yellow"%string => Some 20
  | Some "blue"%string => Some 30
  | _ => None
  end.

Definition createRoom (roomId : string) : Room :=
  mkRoom roomId [] 0%nat 0 0%nat false.

(** ** Messages *)

Definition PlayerInfo := (string * string * option string * bool)%type.

Inductive Msg :=
| Joined (playerId : string) (c : option string) (ps : list PlayerInfo)
| PlayerList (ps : list PlayerInfo)
| GameStarted (turnPlayerId : string) (state : list (string * list Z))
| RollResult (playerId : string) (roll : Z) (moves : list nat)
| StateUpdate (playerId : string) (ps : list Z) (tokenIndex : nat) (roll : Z)
    (captured finished : bool)
| TurnMsg (playerId : string)
| PlayerFinishedMsg (playerId : string)
| ErrorMsg (message : string).

Inductive Out :=
| ToSender (m : Msg)    (* [ws.send] *)
| Broadcast (m : Msg).  (* [broadcast(room, ...)] *)

Definition player_info (p : Player) : PlayerInfo := (id p, name p, color p, ready p).

(** ** Board geometry and move engine *)

Definition computeGlobalIndex (c : option string) (pos : Z) : jsnum :=
  if pos <? 0 then Some (-1)
  else if pos <=? 51 then
    match COLOR_START c with
    | Some start => Some ((start + pos) mod 52)
    | None => None
    end
  else
    match colorOffset c with
    | Some off => Some (100 + off + (pos - 52))
    | None => None
    end.

(** The per-token test of [computeMovableTokens]. *)
Definition token_movable (pos roll : Z) : bool :=
  if pos =? -1 then roll =? 6
  else
    let newPos := pos + roll in
    if pos <? 52 then
      if newPos <=? 51 then true
      else (newPos - 51 <=? 6)
    else newPos <=? 57.

Fixpoint movable_from (i : nat) (ps : list Z) (roll : Z) : list nat :=
  match ps with
  | [] => []
  | pos :: rest =>
      if token_movable pos roll then i :: movable_from (S i) rest roll
      else movable_from (S i) rest roll
  end.

Definition computeMovableTokens (p : Player) (roll : Z) : list nat :=
  movable_from 0 (positions p) roll.

Definition finishedCount (p : Player) : nat :=
  length (List.filter (fun pos => pos =? 57) (positions p)).

(** The [while] loop of [nextTurn], with [n - iterations] as fuel. *)
Fixpoint nextTurn_loop (ps : list Player) (idx fuel : nat) : option nat :=
  match fuel with
  | O => None
  | S f =>
      match ps !! idx with
      | Some p =>
          if (finishedCount p <? 4)%nat then Some idx
          else nextTurn_loop ps ((idx + 1) mod length ps)%nat f
      | None => None
      end
  end.

Definition nextTurn (r : Room) : Room :=
  let n := length (players r) in
  if (n =? 0)%nat then r
  else
    match nextTurn_loop (players r) ((turnIndex r + 1) mod n)%nat n with
    | Some i => set_turnIndex i r
    | None => r   (* all players finished; keep index *)
    end.

(** The capture test applied to one opponent token. *)
Definition captures_at (oppColor : option string) (target : jsnum) (oppPos : Z) : bool :=
  (0 <=? oppPos) && (oppPos <=? 51)
  && num_eqb (computeGlobalIndex oppColor oppPos) target
  && negb (safe_includes target).

(** The inner [forEach] on one player of the room. *)
Definition capture_player (moverId : string) (target : jsnum) (opp : Player) : Player * bool :=
  if String.eqb (id opp) moverId then (opp, false)
  else (set_positions
          (map (fun q => if captures_at (color opp) target q then -1 else q) (positions opp))
          opp,
        existsb (captures_at (color opp) target) (positions opp)).

(** The new position computed by [performMove]. *)
Definition destination (pos roll : Z) : Z :=
  if pos =? -1 then 0
  else
    let newPos := pos + roll in
    if (pos <? 52) && (51 <? newPos) then 51 + (newPos - 51) else newPos.

(** [performMove(room, player, tokenIndex, roll)]: the mover is the player
    at index [t] of [ps]. Returns the new roster, the mutated mover and
    [{captured, finishedNow}]; [None] if [tokenIndex] is out of range
    (never reached: the handler validates it first). *)
Definition performMove (ps : list Player) (t : nat) (player : Player)
    (tokenIndex : nat) (roll : Z) : option (list Player * Player * bool * bool) :=
  match positions player !! tokenIndex with
  | None => None
  | Some pos =>
      let newPos := destination pos roll in
      let '(ps1, captured) :=
        if newPos <=? 51 then
          let target := computeGlobalIndex (color player) newPos in
          let res := map (capture_player (id player) target) ps in
          (map fst res, existsb snd res)
        else (ps, false) in
      let player' := set_positions (<[tokenIndex := newPos]> (positions player)) player in
      Some (<[t := player']> ps1, player', captured, bool_decide (newPos = 57))
  end.

(** ** Message handlers of the [/ws] endpoint *)

Definition COLORS : list string := ["red"; "green"; "yellow"; "blue"]%string.

(** [takenColors.includes(c)] *)
Definition includes_color (taken : list (option string)) (c : option string) : bool :=
  existsb (fun t => bool_decide (t = c)) taken.

(** Color resolution of the join handler; the requested color is a string,
    [""] when absent (both are falsy in [!color]). *)
Definition chooseColor (taken : list (option string)) (c : string) : option string :=
  if String.eqb c "" || includes_color taken (Some c) then
    List.find (fun c' => negb (includes_color taken (Some c'))) COLORS
  else Some c.

Definition default_name (r : Room) : string :=
  ("Player " ++ pretty (N.of_nat (length (players r) + 1)))%string.

(** [join {roomId, name, color}] on the room returned by [getRoom(roomId)];
    [playerId] is the result of [makeId()]. *)
Definition handle_join (r : Room) (nm c playerId : string) : option (Room * list Out) :=
  if gameStarted r then
    Some (r, [ToSender (ErrorMsg "Game already started for this room")])
  else
    let chosenColor := chooseColor (map color (players r)) c in
    let player := mkPlayer playerId (if String.eqb nm "" then default_name r else nm)
                    chosenColor false [-1; -1; -1; -1] in
    let r' := set_players (players r ++ [player]) r in
    Some (r', [ToSender (Joined playerId chosenColor (map player_info (players r')));
               Broadcast (PlayerList (map player_info (players r')))]).

Definition handle_ready (r : Room) (sender : string) : option (Room * list Out) :=
  let r' := set_players (map (fun q => if String.eqb (id q) sender then set_ready true q else q)
                             (players r)) r in
  Some (r', [Broadcast (PlayerList (map player_info (players r')))]).

Definition handle_start (r : Room) (sender : string) : option (Room * list Out) :=
  if gameStarted r then Some (r, [])
  else if (length (players r) <? 2)%nat then
    Some (r, [ToSender (ErrorMsg "Need at least 2 players to start")])
  else if negb (forallb ready (players r)) then
    Some (r, [ToSender (ErrorMsg "All players must be ready")])
  else
    let r' := set_consecutiveSixes 0 (set_currentRoll 0 (set_turnIndex 0 (set_gameStarted true r))) in
    match players r' !! 0%nat with
    | None => None
    | Some p0 =>
        Some (r', [Broadcast (GameStarted (id p0)
                               (map (fun p => (id p, positions p)) (players r')))])
    end.

(** [broadcast(room, {type: 'turn', playerId: room.players[room.turnIndex].id})] *)
Definition turn_msg (r : Room) : option Out :=
  match players r !! turnIndex r with
  | Some q => Some (Broadcast (TurnMsg (id q)))
  | None => None
  end.

Definition handle_roll (r : Room) (sender : string) (die : Z) : option (Room * list Out) :=
  match players r !! turnIndex r with
  | None => None
  | Some p =>
      if negb (String.eqb (id p) sender) then Some (r, [])
      else
        let cs1 := if die =? 6 then S (consecutiveSixes r) else 0%nat in
        let moves := computeMovableTokens p die in
        let mustPass := match moves with [] => true | _ => false end in
        let skipTurn := (die =? 6) && (3 <=? cs1)%nat in
        let cs2 := if skipTurn then 0%nat else cs1 in
        let r1 := set_consecutiveSixes cs2 (set_currentRoll die r) in
        let o1 := Broadcast (RollResult sender die moves) in
        if skipTurn || mustPass then
          let r2 := nextTurn r1 in
          match turn_msg r2 with
          | Some o2 => Some (r2, [o1; o2])
          | None => None
          end
        else Some (r1, [o1])
  end.

Definition handle_move (r : Room) (sender : string) (tokenIndex : nat) : option (Room * list Out) :=
  match players r !! turnIndex r with
  | None => None
  | Some p =>
      if negb (String.eqb (id p) sender) then Some (r, [])
      else
        let roll := currentRoll r in
        let available := computeMovableTokens p roll in
        if negb (existsb (Nat.eqb tokenIndex) available) then Some (r, [])
        else
          match performMove (players r) (turnIndex r) p tokenIndex roll with
          | None => None
          | Some (ps1, p1, captured, finishedNow) =>
              let r1 := set_players ps1 r in
              let o1 := Broadcast (StateUpdate sender (positions p1) tokenIndex roll
                                     captured finishedNow) in
              let o2 := if (finishedCount p1 =? 4)%nat
                        then [Broadcast (PlayerFinishedMsg sender)] else [] in
              let extraTurn := ((roll =? 6) && (0 <? consecutiveSixes r)%nat)
                               || captured || finishedNow in
              let r2 := if extraTurn then r1
                        else nextTurn (set_consecutiveSixes 0 r1) in
              let r3 := set_currentRoll 0 r2 in
              match turn_msg r3 with
              | Some o3 => Some (r3, o1 :: o2 ++ [o3])
              | None => None
              end
          end
  end.

(** The [close] handler: the departing player is removed from the room; the
    registry drops the room once it is empty, which no other handler of the
    room observes. *)
Definition handle_close (r : Room) (sender : string) : option (Room * list Out) :=
  let ps := List.filter (fun q => negb (String.eqb (id q) sender)) (players r) in
  let r1 := set_players ps r in
  let r2 := if (length ps <=? turnIndex r1)%nat then set_turnIndex 0 r1 else r1 in
  Some (r2, [Broadcast (PlayerList (map player_info (players r2)))]).

(** Requests a room can receive, with the sender's player id. *)
Inductive Request :=
| ReqJoin (nm c playerId : string)
| ReqReady (sender : string)
| ReqStart (sender : string)
| ReqRoll (sender : string) (die : Z)
| ReqMove (sender : string) (tokenIndex : nat)
| ReqClose (sender : string).

Definition handle (r : Room) (q : Request) : option (Room * list Out) :=
  match q with
  | ReqJoin nm c pid => handle_join r nm c pid
  | ReqReady s => handle_ready r s
  | ReqStart s => handle_start r s
  | ReqRoll s die => handle_roll r s die
  | ReqMove s k => handle_move r s k
  | ReqClose s => handle_close r s
  end.

(** A request the room can really receive: the die of [Math.floor(Math.random() * 6) + 1]. *)
Definition valid_request (q : Request) : Prop :=
  match q with
  | ReqRoll _ die => 1 <= die <= 6
  | _ => True
  end.

(** Rooms reachable from [createRoom] by a sequence of handled requests. *)
Inductive reachable : Room -> Prop :=
| reach_create rid : reachable (createRoom rid)
| reach_step r q r' outs :
    reachable r -> valid_request q -> handle r q = Some (r', outs) -> reachable r'.

(** Runs a sequence of requests; [None] if some handler throws. *)
Fixpoint run (r : Room) (qs : list Request) : option (Room * list Out) :=
  match qs with
  | [] => Some (r, [])
  | q :: rest =>
      match handle r q with
      | None => None
      | Some (r1, o1) =>
          match run r1 rest with
          | None => None
          | Some (r2, o2) => Some (r2, o1 ++ o2)
          end
      end
  end.

(** ** Basic facts about the embedding *)

Lemma nextTurn_loop_lt (ps : list Player) (idx fuel i : nat) :
  nextTurn_loop ps idx fuel = Some i -> (i < length ps)%nat.
Proof.
  revert idx. induction fuel as [|f IH]; intros idx H; simpl in H; [discriminate|].
  destruct (ps !! idx) as [p|] eqn:Hl; [|discriminate].
  destruct (finishedCount p <? 4)%nat.
  - injection H as <-. eapply lookup_lt_Some; eauto.
  - eapply IH; eauto.
Qed.

Lemma nextTurn_fields (r : Room) :
  players (nextTurn r) = players r /\ currentRoll (nextTurn r) = currentRoll r /\
  consecutiveSixes (nextTurn r) = consecutiveSixes r /\
  gameStarted (nextTurn r) = gameStarted r.
Proof.
  unfold nextTurn. destruct (_ =? 0)%nat; [auto|].
  destruct (nextTurn_loop _ _ _); auto.
Qed.

Lemma nextTurn_in_bounds (r : Room) :
  players r <> [] -> (turnIndex r < length (players r))%nat ->
  (turnIndex (nextTurn r) < length (players r))%nat.
Proof.
  intros Hne Hlt. unfold nextTurn.
  destruct (length (players r) =? 0)%nat eqn:E; [assumption|].
  destruct (nextTurn_loop _ _ _) as [i|] eqn:Hl; [|assumption].
  simpl. eapply nextTurn_loop_lt; eauto.
Qed.

(** [nextTurn] only reads the roster and the turn index. *)
Lemma nextTurn_turnIndex_congr (r1 r2 : Room) :
  players r1 = players r2 -> turnIndex r1 = turnIndex r2 ->
  turnIndex (nextTurn r1) = turnIndex (nextTurn r2).
Proof.
  intros Hp Ht. unfold nextTurn. rewrite Hp, Ht.
  destruct (_ =? 0)%nat; [exact Ht|].
  destruct (nextTurn_loop _ _ _); simpl; auto.
Qed.

Lemma turn_msg_some (r : Room) :
  (turnIndex r < length (players r))%nat ->
  exists q, players r !! turnIndex r = Some q /\ turn_msg r = Some (Broadcast (TurnMsg (id q))).
Proof.
  intros H. destruct (lookup_lt_is_Some_2 (players r) (turnIndex r) H) as [q Hq].
  exists q. unfold turn_msg. rewrite Hq. auto.
Qed.

Lemma length_performMove (ps : list Player) (t : nat) (p : Player) (k : nat) (roll : Z)
    (ps' : list Player) (p' : Player) (cap fin : bool) :
  performMove ps t p k roll = Some (ps', p', cap, fin) -> length ps' = length ps.
Proof.
  unfold performMove. destruct (positions p !! k) as [pos|]; [|discriminate].
  destruct (destination pos roll <=? 51); intros H; injection H as <- _ _ _;
    rewrite length_insert; [rewrite !length_map|]; reflexivity.
Qed.

(** ** Claims about the turn state machine *)

(** C5: a [roll] or [move] request whose sender is not
    [players[turnIndex]] leaves the room unchanged and sends nothing (no
    broadcast, no error). *)
Theorem roll_move_other_sender_noop (r : Room) (p : Player) (sender : string)
    (die : Z) (tokenIndex : nat) :
  players r !! turnIndex r = Some p -> id p <> sender ->
  handle r (ReqRoll sender die) = Some (r, []) /\
  handle r (ReqMove sender tokenIndex) = Some (r, []).
Proof.
  intros Hp Hne. simpl. unfold handle_roll, handle_move. rewrite Hp.
  apply String.eqb_neq in Hne. rewrite Hne. auto.
Qed.

Definition room_two : Room :=
  mkRoom "room" [mkPlayer "a" "A" (Some "red") true [5; -1; -1; -1];
                 mkPlayer "b" "B" (Some "green") true [-1; -1; -1; -1]]
         0 3 0 true.

Lemma roll_move_other_sender_noop_witness :
  (players room_two !! turnIndex room_two = Some (mkPlayer "a" "A" (Some "red") true [5; -1; -1; -1])
   /\ id (mkPlayer "a" "A" (Some "red") true [5; -1; -1; -1]) <> "b"%string) /\
  handle room_two (ReqRoll "b" 6) = Some (room_two, []) /\
  handle room_two (ReqMove "b" 0) = Some (room_two, []).
Proof.
  split; [split; [reflexivity | discriminate] |].
  apply (roll_move_other_sender_noop room_two
           (mkPlayer "a" "A" (Some "red") true [5; -1; -1; -1]) "b" 6 0);
    [reflexivity | discriminate].
Defined.

(** What an accepted roll does, for any die value. *)
Lemma handle_roll_accepted (r : Room) (p : Player) (die : Z) :
  players r !! turnIndex r = Some p ->
  let cs1 := if die =? 6 then S (consecutiveSixes r) else 0%nat in
  let skipTurn := (die =? 6) && (3 <=? cs1)%nat in
  let pass := skipTurn || match computeMovableTokens p die with [] => true | _ => false end in
  exists r' outs,
    handle r (ReqRoll (id p) die) = Some (r', outs) /\
    players r' = players r /\ currentRoll r' = die /\
    consecutiveSixes r' = (if skipTurn then 0%nat else cs1) /\
    gameStarted r' = gameStarted r /\
    turnIndex r' = (if pass then turnIndex (nextTurn r) else turnIndex r) /\
    (exists rest, outs = Broadcast (RollResult (id p) die (computeMovableTokens p die)) :: rest) /\
    (pass = true -> exists q, players r' !! turnIndex r' = Some q /\
                   outs = [Broadcast (RollResult (id p) die (computeMovableTokens p die));
                           Broadcast (TurnMsg (id q))]).
Proof.
  intros Hp cs1 skipTurn pass. unfold handle, handle_roll. rewrite Hp, String.eqb_refl.
  cbn [negb]. fold cs1 skipTurn. fold pass.
  set (r1 := set_consecutiveSixes (if skipTurn then 0%nat else cs1) (set_currentRoll die r)).
  assert (Hlt : (turnIndex r < length (players r))%nat) by (eapply lookup_lt_Some; eauto).
  destruct pass eqn:Hpass.
  - assert (Hb : (turnIndex (nextTurn r1) < length (players (nextTurn r1)))%nat).
    { destruct (nextTurn_fields r1) as [-> _].
      apply nextTurn_in_bounds; simpl; [|exact Hlt].
      intros E. rewrite E in Hlt. simpl in Hlt. lia. }
    destruct (turn_msg_some _ Hb) as [q [Hq ->]].
    destruct (nextTurn_fields r1) as (E1 & E2 & E3 & E4).
    eexists (nextTurn r1), _. split; [reflexivity|].
    repeat split; try assumption.
    + apply nextTurn_turnIndex_congr; reflexivity.
    + eexists; reflexivity.
    + intros _. exists q. auto.
  - eexists r1, _. split; [reflexivity|]. repeat split; try reflexivity.
    + eexists; reflexivity.
    + discriminate.
Qed.

(** C6: when the roll is a 6 that brings [consecutiveSixes] to 3 or more,
    the turn passes as [nextTurn] decides, whatever the legal moves, and
    [consecutiveSixes] is reset to 0. *)
Theorem roll_third_six_passes_turn (r : Room) (p : Player) :
  players r !! turnIndex r = Some p -> (3 <= S (consecutiveSixes r))%nat ->
  exists r' q,
    handle r (ReqRoll (id p) 6) =
      Some (r', [Broadcast (RollResult (id p) 6 (computeMovableTokens p 6));
                 Broadcast (TurnMsg (id q))]) /\
    turnIndex r' = turnIndex (nextTurn r) /\ players r' !! turnIndex r' = Some q /\
    consecutiveSixes r' = 0%nat /\ players r' = players r.
Proof.
  intros Hp H3.
  destruct (handle_roll_accepted r p 6 Hp) as (r' & outs & Hh & Hps & _ & Hcs & _ & Ht & _ & Hpass).
  assert (E : (3 <=? S (consecutiveSixes r))%nat = true) by (apply Nat.leb_le; exact H3).
  rewrite (Z.eqb_refl 6) in Hcs, Ht, Hpass. rewrite E in Hcs, Ht, Hpass.
  cbn [andb orb] in Hcs, Ht, Hpass.
  destruct (Hpass eq_refl) as (q & Hq & Ho). subst outs.
  exists r', q. auto.
Qed.

Lemma roll_third_six_passes_turn_witness :
  let r := mkRoom "room" [mkPlayer "a" "A" (Some "red") true [5; -1; -1; -1];
                          mkPlayer "b" "B" (Some "green") true [-1; -1; -1; -1]] 0 0 2 true in
  let p := mkPlayer "a" "A" (Some "red") true [5; -1; -1; -1] in
  (players r !! turnIndex r = Some p /\ (3 <= S (consecutiveSixes r))%nat) /\
  exists r' q,
    handle r (ReqRoll (id p) 6) =
      Some (r', [Broadcast (RollResult (id p) 6 (computeMovableTokens p 6));
                 Broadcast (TurnMsg (id q))]) /\
    turnIndex r' = turnIndex (nextTurn r) /\ players r' !! turnIndex r' = Some q /\
    consecutiveSixes r' = 0%nat /\ players r' = players r.
Proof.
  intros r p. split; [split; [reflexivity | simpl; lia] |].
  apply roll_third_six_passes_turn; [reflexivity | simpl; lia].
Defined.

(** Setting [gameStarted] commutes with [nextTurn] and the other setters. *)
Lemma nextTurn_set_gameStarted (b : bool) (r : Room) :
  nextTurn (set_gameStarted b r) = set_gameStarted b (nextTurn r).
Proof.
  destruct r; unfold nextTurn; simpl.
  destruct (_ =? 0)%nat; [reflexivity|]. destruct (nextTurn_loop _ _ _); reflexivity.
Qed.

Lemma set_currentRoll_gameStarted (b : bool) (c : Z) (r : Room) :
  set_currentRoll c (set_gameStarted b r) = set_gameStarted b (set_currentRoll c r).
Proof. reflexivity. Qed.

Lemma set_consecutiveSixes_gameStarted (b : bool) (n : nat) (r : Room) :
  set_consecutiveSixes n (set_gameStarted b r) = set_gameStarted b (set_consecutiveSixes n r).
Proof. reflexivity. Qed.

Lemma set_players_gameStarted (b : bool) (ps : list Player) (r : Room) :
  set_players ps (set_gameStarted b r) = set_gameStarted b (set_players ps r).
Proof. reflexivity. Qed.

Lemma turn_msg_gameStarted (b : bool) (r : Room) :
  turn_msg (set_gameStarted b r) = turn_msg r.
Proof. reflexivity. Qed.

Create Rewrite HintDb started_db.
Hint Rewrite set_currentRoll_gameStarted set_consecutiveSixes_gameStarted
  set_players_gameStarted nextTurn_set_gameStarted turn_msg_gameStarted : started_db.

Definition restart (b : bool) (ro : Room * list Out) : Room * list Out :=
  (set_gameStarted b ro.1, ro.2).

Lemma handle_roll_set_gameStarted (b : bool) (r : Room) (s : string) (die : Z) :
  handle_roll (set_gameStarted b r) s die = option_map (restart b) (handle_roll r s die).
Proof.
  unfold handle_roll. cbn [players turnIndex consecutiveSixes set_gameStarted].
  destruct (players r !! turnIndex r) as [p|]; [|reflexivity].
  destruct (negb _); [reflexivity|].
  autorewrite with started_db.
  destruct (_ || _); [|reflexivity].
  destruct (turn_msg _); reflexivity.
Qed.

Lemma handle_move_set_gameStarted (b : bool) (r : Room) (s : string) (k : nat) :
  handle_move (set_gameStarted b r) s k = option_map (restart b) (handle_move r s k).
Proof.
  unfold handle_move. cbn [players turnIndex consecutiveSixes currentRoll set_gameStarted].
  destruct (players r !! turnIndex r) as [p|]; [|reflexivity].
  destruct (negb _); [reflexivity|].
  destruct (negb _); [reflexivity|].
  destruct (performMove _ _ _ _ _) as [[[[ps1 p1] cap] fin]|]; [|reflexivity].
  autorewrite with started_db.
  destruct (_ || _ || _); autorewrite with started_db;
    destruct (turn_msg _); reflexivity.
Qed.

(** C10: in a room that has not started, a roll by [players[turnIndex]] is
    accepted: [currentRoll] becomes the die, [consecutiveSixes] is updated
    and [roll_result] is broadcast first; the roll and move handlers do not
    read [gameStarted] at all. *)
Theorem roll_accepted_before_start (r : Room) (p : Player) (die : Z) :
  gameStarted r = false -> players r !! turnIndex r = Some p ->
  (exists r' outs,
     handle r (ReqRoll (id p) die) = Some (r', outs) /\
     currentRoll r' = die /\
     consecutiveSixes r' =
       (if die =? 6 then
          (if (3 <=? S (consecutiveSixes r))%nat then 0%nat else S (consecutiveSixes r))
        else 0%nat) /\
     gameStarted r' = false /\
     (exists rest, outs = Broadcast (RollResult (id p) die (computeMovableTokens p die)) :: rest)) /\
  (forall (b : bool) (s : string) (d : Z) (k : nat),
     handle (set_gameStarted b r) (ReqRoll s d) = option_map (restart b) (handle r (ReqRoll s d)) /\
     handle (set_gameStarted b r) (ReqMove s k) = option_map (restart b) (handle r (ReqMove s k))).
Proof.
  intros Hst Hp. split.
  - destruct (handle_roll_accepted r p die Hp)
      as (r' & outs & Hh & _ & Hcr & Hcs & Hg & _ & Hrest & _).
    exists r', outs. repeat split; try assumption; [| congruence].
    rewrite Hcs. destruct (die =? 6); [|reflexivity].
    cbn [andb]. destruct (3 <=? S (consecutiveSixes r))%nat; reflexivity.
  - intros b s d k. split; [apply handle_roll_set_gameStarted | apply handle_move_set_gameStarted].
Qed.

Definition room_lobby : Room :=
  mkRoom "room" [mkPlayer "a" "A" (Some "red") false [-1; -1; -1; -1]] 0 0 0 false.

Lemma roll_accepted_before_start_witness :
  (gameStarted room_lobby = false /\
   players room_lobby !! turnIndex room_lobby = Some (mkPlayer "a" "A" (Some "red") false [-1; -1; -1; -1])) /\
  exists r' outs,
    handle room_lobby (ReqRoll "a" 4) = Some (r', outs) /\ currentRoll r' = 4.
Proof.
  split; [split; reflexivity|].
  destruct (roll_accepted_before_start room_lobby
              (mkPlayer "a" "A" (Some "red") false [-1; -1; -1; -1]) 4 eq_refl eq_refl)
    as [(r' & outs & Hh & Hc & _) _].
  exists r', outs. split; assumption.
Defined.

(** What an executed move does: [players[turnIndex]] asks for a token of the
    list recomputed from [currentRoll]. *)
Lemma handle_move_executed (r : Room) (p : Player) (k : nat)
    (ps1 : list Player) (p1 : Player) (cap fin : bool) :
  players r !! turnIndex r = Some p ->
  existsb (Nat.eqb k) (computeMovableTokens p (currentRoll r)) = true ->
  performMove (players r) (turnIndex r) p k (currentRoll r) = Some (ps1, p1, cap, fin) ->
  let extraTurn := ((currentRoll r =? 6) && (0 <? consecutiveSixes r)%nat) || cap || fin in
  exists r' q mid,
    handle r (ReqMove (id p) k) =
      Some (r', Broadcast (StateUpdate (id p) (positions p1) k (currentRoll r) cap fin)
                :: mid ++ [Broadcast (TurnMsg (id q))]) /\
    players r' = ps1 /\ currentRoll r' = 0 /\ gameStarted r' = gameStarted r /\
    players r' !! turnIndex r' = Some q /\
    (if extraTurn
     then turnIndex r' = turnIndex r /\ consecutiveSixes r' = consecutiveSixes r
     else turnIndex r' = turnIndex (nextTurn (set_players ps1 r)) /\ consecutiveSixes r' = 0%nat).
Proof.
  intros Hp Hav Hpm extraTurn.
  unfold handle, handle_move. rewrite Hp, String.eqb_refl, Hav. cbn [negb].
  rewrite Hpm. fold extraTurn.
  assert (Hlt : (turnIndex r < length (players r))%nat) by (eapply lookup_lt_Some; eauto).
  pose proof (length_performMove _ _ _ _ _ _ _ _ _ Hpm) as Hlen.
  set (r1 := set_players ps1 r).
  assert (Hb1 : (turnIndex r1 < length (players r1))%nat) by (simpl; lia).
  set (r2 := if extraTurn then r1 else nextTurn (set_consecutiveSixes 0 r1)).
  assert (Hr2 : players r2 = ps1 /\ gameStarted r2 = gameStarted r /\
                (turnIndex r2 < length ps1)%nat /\
                (if extraTurn
                 then turnIndex r2 = turnIndex r /\ consecutiveSixes r2 = consecutiveSixes r
                 else turnIndex r2 = turnIndex (nextTurn r1) /\ consecutiveSixes r2 = 0%nat)).
  { unfold r2. destruct extraTurn.
    - simpl in *. repeat split; auto.
    - destruct (nextTurn_fields (set_consecutiveSixes 0 r1)) as (E1 & _ & E3 & E4).
      rewrite E1, E3, E4. repeat split; try reflexivity.
      + pose proof (nextTurn_in_bounds (set_consecutiveSixes 0 r1)) as B.
        simpl in B. apply B; [|lia].
        intros E. rewrite E in Hlen. simpl in Hlen. lia.
      + apply nextTurn_turnIndex_congr; reflexivity. }
  destruct Hr2 as (Hp2 & Hg2 & Hb2 & Ht2).
  assert (Hb3 : (turnIndex (set_currentRoll 0 r2) < length (players (set_currentRoll 0 r2)))%nat)
    by (simpl; rewrite Hp2; exact Hb2).
  destruct (turn_msg_some _ Hb3) as [q [Hq ->]].
  eexists (set_currentRoll 0 r2), q, _. split; [reflexivity|].
  simpl. repeat split; auto.
Qed.

(** ** The turn-index invariant *)

Definition turn_ok (r : Room) : Prop :=
  turnIndex r = 0%nat \/ (turnIndex r < length (players r))%nat.

Lemma handle_move_shape (r : Room) (s : string) (k : nat) (r' : Room) (outs : list Out) :
  handle_move r s k = Some (r', outs) ->
  r' = r \/ exists q, players r' !! turnIndex r' = Some q.
Proof.
  unfold handle_move.
  destruct (players r !! turnIndex r) as [p|] eqn:Hp; [|discriminate].
  destruct (String.eqb (id p) s) eqn:Hs; cbn [negb];
    [|intros H; injection H as <- _; auto].
  apply String.eqb_eq in Hs. subst s.
  destruct (existsb (Nat.eqb k) _) eqn:Hav; cbn [negb];
    [|intros H; injection H as <- _; auto].
  destruct (performMove _ _ _ _ _) as [[[[ps1 p1] cap] fin]|] eqn:Hpm; [|discriminate].
  intros H. right.
  destruct (handle_move_executed r p k ps1 p1 cap fin Hp Hav Hpm)
    as (r2 & q & mid & Hh & _ & _ & _ & Hq & _).
  simpl in Hh. unfold handle_move in Hh. rewrite Hp, String.eqb_refl, Hav, Hpm in Hh.
  cbn [negb] in Hh. rewrite H in Hh. injection Hh as -> _. eauto.
Qed.

Lemma handle_turn_ok (r : Room) (q : Request) (r' : Room) (outs : list Out) :
  turn_ok r -> handle r q = Some (r', outs) -> turn_ok r'.
Proof.
  unfold turn_ok. intros Hok. destruct q as [nm c pid|s|s|s die|s k|s]; simpl.
  - (* join *)
    unfold handle_join. destruct (gameStarted r); intros H; injection H as <- _; [exact Hok|].
    simpl. rewrite length_app. simpl. lia.
  - (* ready *)
    unfold handle_ready. intros H; injection H as <- _. simpl. rewrite length_map. exact Hok.
  - (* start *)
    unfold handle_start. destruct (gameStarted r); [intros H; injection H as <- _; exact Hok|].
    destruct (length (players r) <? 2)%nat; [intros H; injection H as <- _; exact Hok|].
    destruct (negb _); [intros H; injection H as <- _; exact Hok|].
    destruct (_ !! 0%nat); [|discriminate]. intros H; injection H as <- _. left; reflexivity.
  - (* roll *)
    unfold handle_roll. destruct (players r !! turnIndex r) as [p|] eqn:Hp; [|discriminate].
    destruct (String.eqb (id p) s) eqn:Hs; cbn [negb]; [|intros H; injection H as <- _; exact Hok].
    apply String.eqb_eq in Hs. subst s. intros H.
    destruct (handle_roll_accepted r p die Hp) as (r2 & o2 & Hh & Hps & _ & _ & _ & Ht & _ & Hpass).
    unfold handle, handle_roll in Hh. rewrite Hp, String.eqb_refl in Hh. cbn [negb] in Hh.
    rewrite H in Hh. injection Hh as <- _.
    destruct (_ || _).
    + destruct (Hpass eq_refl) as (q & Hq & _). right. eapply lookup_lt_Some; eauto.
    + rewrite Ht, Hps. right. eapply lookup_lt_Some; eauto.
  - (* move *)
    intros H. destruct (handle_move_shape _ _ _ _ _ H) as [->|[q Hq]]; [exact Hok|].
    right. eapply lookup_lt_Some; eauto.
  - (* close *)
    unfold handle_close. intros H; injection H as <- _.
    destruct (_ <=? _)%nat eqn:E; [left; reflexivity|].
    apply Nat.leb_gt in E. right. exact E.
Qed.

Lemma reachable_turn_ok (r : Room) : reachable r -> turn_ok r.
Proof.
  induction 1 as [rid|r q r' outs _ IH _ Hh].
  - left. reflexivity.
  - eapply handle_turn_ok; eauto.
Qed.

(** C4: in every room reachable by join, ready, start, roll, move and
    departure requests, [0 <= turnIndex < length players] whenever the roster
    is non-empty. *)
Theorem reachable_turnIndex_in_bounds (r : Room) :
  reachable r -> players r <> [] -> (turnIndex r < length (players r))%nat.
Proof.
  intros Hr Hne. destruct (reachable_turn_ok r Hr) as [E|H]; [|exact H].
  rewrite E. destruct (players r); [contradiction|]. simpl. lia.
Qed.

Lemma run_reachable (r : Room) (qs : list Request) (r' : Room) (outs : list Out) :
  reachable r -> Forall valid_request qs -> run r qs = Some (r', outs) -> reachable r'.
Proof.
  revert r outs. induction qs as [|q qs IH]; intros r outs Hr Hv H; simpl in H.
  - injection H as <- _. exact Hr.
  - inversion Hv as [|? ? Hq Hqs]; subst.
    destruct (handle r q) as [[r1 o1]|] eqn:E1; [|discriminate].
    destruct (run r1 qs) as [[r2 o2]|] eqn:E2; [|discriminate].
    injection H as <- _. eapply IH; [| exact Hqs | exact E2].
    eapply reach_step; eauto.
Qed.

(** ** Concrete sessions *)

(** Two players [a] (red) and [b] (green) join, ready up and start. *)
Definition session_start : list Request :=
  [ReqJoin "A" "" "a"; ReqJoin "B" "" "b"; ReqReady "a"; ReqReady "b"; ReqStart "a"].

(** [a] rolls a 6, brings token 0 out and gets another roll. *)
Definition session_extra_turn : list Request :=
  session_start ++ [ReqRoll "a" 6; ReqMove "a" 0].

(** [a] rolls three 6 in a row; the third one passes the turn to [b]. *)
Definition session_bust : list Request :=
  session_extra_turn ++ [ReqRoll "a" 6; ReqMove "a" 0; ReqRoll "a" 6].

Definition room_after (qs : list Request) : Room :=
  match run (createRoom "room") qs with
  | Some (r, _) => r
  | None => createRoom "room"
  end.

Lemma room_after_reachable (qs : list Request) :
  Forall valid_request qs -> reachable (room_after qs).
Proof.
  intros Hv. unfold room_after.
  destruct (run (createRoom "room") qs) as [[r o]|] eqn:E.
  - eapply run_reachable; [apply reach_create | exact Hv | exact E].
  - apply reach_create.
Qed.

Lemma reachable_turnIndex_in_bounds_witness :
  (reachable (room_after session_bust) /\ players (room_after session_bust) <> []) /\
  (turnIndex (room_after session_bust) < length (players (room_after session_bust)))%nat.
Proof.
  assert (Hr : reachable (room_after session_bust)).
  { apply room_after_reachable. repeat constructor; simpl; lia. }
  assert (Hne : players (room_after session_bust) <> []) by (vm_compute; discriminate).
  split; [split; assumption|].
  apply reachable_turnIndex_in_bounds; assumption.
Defined.

(** ** Claims about executed moves *)

(** C7 (code): after [a]'s third six the turn is [b]'s with [a]'s 6 still
    stored as [currentRoll] and [consecutiveSixes = 0]. [b] has not rolled, yet
    its move with that 6 is executed (no outstanding-roll check, as in C1),
    captures nothing, finishes nothing, and passes the turn although the roll
    was a 6. *)
Lemma move_with_six_passes_turn :
  let r := room_after session_bust in
  exists r' outs,
    reachable r /\ currentRoll r = 6 /\
    handle r (ReqMove "b" 0) = Some (r', outs) /\
    In (Broadcast (StateUpdate "b" [0; -1; -1; -1] 0 6 false false)) outs /\
    turnIndex r = 1%nat /\ turnIndex r' = 0%nat.
Proof.
  intros r. eexists _, _. split.
  - apply room_after_reachable. repeat constructor; simpl; lia.
  - split; [vm_compute; reflexivity|]. split; [vm_compute; reflexivity|].
    split; [vm_compute; auto|]. split; vm_compute; reflexivity.
Qed.

(** An executed move keeps the turn with the mover exactly when
    the roll is a 6 while [consecutiveSixes > 0], or the move captured, or the
    moved token reached 57; otherwise [consecutiveSixes] is reset and the turn
    passes as [nextTurn] decides. Either way [currentRoll] is 0 before the
    final [turn] broadcast, which names [players[turnIndex]]. *)
Theorem move_turn_rule (r : Room) (p : Player) (k : nat)
    (ps1 : list Player) (p1 : Player) (cap fin : bool) :
  players r !! turnIndex r = Some p ->
  In k (computeMovableTokens p (currentRoll r)) ->
  performMove (players r) (turnIndex r) p k (currentRoll r) = Some (ps1, p1, cap, fin) ->
  exists r' q mid,
    handle r (ReqMove (id p) k) =
      Some (r', Broadcast (StateUpdate (id p) (positions p1) k (currentRoll r) cap fin)
                :: mid ++ [Broadcast (TurnMsg (id q))]) /\
    players r' = ps1 /\ currentRoll r' = 0 /\ players r' !! turnIndex r' = Some q /\
    ((currentRoll r = 6 /\ (0 < consecutiveSixes r)%nat) \/ cap = true \/ fin = true ->
       turnIndex r' = turnIndex r /\ consecutiveSixes r' = consecutiveSixes r) /\
    (~ ((currentRoll r = 6 /\ (0 < consecutiveSixes r)%nat) \/ cap = true \/ fin = true) ->
       turnIndex r' = turnIndex (nextTurn (set_players ps1 r)) /\ consecutiveSixes r' = 0%nat).
Proof.
  intros Hp Hin Hpm.
  assert (Hav : existsb (Nat.eqb k) (computeMovableTokens p (currentRoll r)) = true).
  { apply existsb_exists. exists k. split; [exact Hin | apply Nat.eqb_refl]. }
  destruct (handle_move_executed r p k ps1 p1 cap fin Hp Hav Hpm)
    as (r' & q & mid & Hh & Hps & Hcr & _ & Hq & Ht).
  exists r', q, mid. do 4 (split; [assumption|]). split.
  - intros Hx. destruct ((currentRoll r =? 6) && (0 <? consecutiveSixes r)%nat || cap || fin) eqn:E;
      [exact Ht|].
    exfalso. apply orb_false_iff in E as [E Hf]. apply orb_false_iff in E as [E Hc].
    subst. destruct Hx as [[H6 H0]|[Hc|Hf]]; try discriminate.
    apply andb_false_iff in E as [E|E].
    + apply Z.eqb_neq in E. contradiction.
    + apply Nat.ltb_ge in E. lia.
  - intros Hx. destruct ((currentRoll r =? 6) && (0 <? consecutiveSixes r)%nat || cap || fin) eqn:E;
      [|exact Ht].
    exfalso. apply Hx. apply orb_true_iff in E as [E|E]; [apply orb_true_iff in E as [E|E]|].
    + apply andb_true_iff in E as [E1 E2]. left. split; [apply Z.eqb_eq; exact E1|].
      apply Nat.ltb_lt; exact E2.
    + right; left; exact E.
    + right; right; exact E.
Qed.

(** [a] has just rolled its own first 6. *)
Definition session_first_six : list Request := session_start ++ [ReqRoll "a" 6].

Lemma move_turn_rule_witness :
  let r := room_after session_first_six in
  let p := mkPlayer "a" "A" (Some "red") true [-1; -1; -1; -1] in
  (players r !! turnIndex r = Some p /\
   In 0%nat (computeMovableTokens p (currentRoll r)) /\
   performMove (players r) (turnIndex r) p 0 (currentRoll r) =
     Some ([mkPlayer "a" "A" (Some "red") true [0; -1; -1; -1];
            mkPlayer "b" "B" (Some "green") true [-1; -1; -1; -1]],
           mkPlayer "a" "A" (Some "red") true [0; -1; -1; -1], false, false)) /\
  exists r' q mid,
    handle r (ReqMove (id p) 0) =
      Some (r', Broadcast (StateUpdate "a" [0; -1; -1; -1] 0 6 false false)
                :: mid ++ [Broadcast (TurnMsg (id q))]) /\
    turnIndex r' = turnIndex r /\ currentRoll r' = 0.
Proof.
  intros r p.
  assert (H1 : players r !! turnIndex r = Some p) by (vm_compute; reflexivity).
  assert (H2 : In 0%nat (computeMovableTokens p (currentRoll r))) by (vm_compute; auto).
  assert (H3 : performMove (players r) (turnIndex r) p 0 (currentRoll r) =
     Some ([mkPlayer "a" "A" (Some "red") true [0; -1; -1; -1];
            mkPlayer "b" "B" (Some "green") true [-1; -1; -1; -1]],
           mkPlayer "a" "A" (Some "red") true [0; -1; -1; -1], false, false))
    by (vm_compute; reflexivity).
  assert (Hcr : currentRoll r = 6) by (vm_compute; reflexivity).
  assert (Hcs : (0 < consecutiveSixes r)%nat) by (vm_compute; lia).
  split; [auto|].
  destruct (move_turn_rule r p 0 _ _ false false H1 H2 H3)
    as (r' & q & mid & Hh & _ & Hcr' & _ & Hkeep & _).
  exists r', q, mid. rewrite Hcr in Hh. split; [exact Hh|].
  split; [apply Hkeep; left; split; assumption | exact Hcr'].
Defined.

(** C1 (code): after [a]'s extra turn, no roll is outstanding
    ([currentRoll = 0]); [a]'s move request is nonetheless executed, since the
    legal moves recomputed from [currentRoll = 0] list every token on the
    track, and the turn passes to [b]. *)
Theorem move_accepted_without_roll :
  let r := room_after session_extra_turn in
  exists r' outs,
    reachable r /\ currentRoll r = 0 /\ turnIndex r = 0%nat /\
    computeMovableTokens (mkPlayer "a" "A" (Some "red") true [0; -1; -1; -1]) 0 = [0%nat] /\
    handle r (ReqMove "a" 0) = Some (r', outs) /\
    outs = [Broadcast (StateUpdate "a" [0; -1; -1; -1] 0 0 false false);
            Broadcast (TurnMsg "b")] /\
    turnIndex r' = 1%nat.
Proof.
  intros r. eexists _, _. split.
  - apply room_after_reachable. repeat constructor; simpl; lia.
  - repeat split; vm_compute; reflexivity.
Qed.

(** ** Captures *)

Lemma lookup_map_option {A B : Type} (f : A -> B) (l : list A) (i : nat) :
  map f l !! i = option_map f (l !! i).
Proof.
  revert i. induction l as [|x l IH]; intros [|i]; simpl; auto.
Qed.

Lemma set_positions_id (q : Player) : set_positions (positions q) q = q.
Proof. destruct q; reflexivity. Qed.

Lemma map_ext_id {A : Type} (f : A -> A) (l : list A) :
  (forall x, In x l -> f x = x) -> map f l = l.
Proof.
  induction l as [|x l IH]; intros H; simpl; [reflexivity|].
  rewrite H by (left; reflexivity). rewrite IH; [reflexivity|]. intros y Hy. apply H. right; exact Hy.
Qed.

(** On a safe target no token of another player is touched. *)
Lemma capture_player_safe (moverId : string) (target : jsnum) (q : Player) :
  safe_includes target = true -> capture_player moverId target q = (q, false).
Proof.
  intros Hs. unfold capture_player. destruct (String.eqb (id q) moverId); [reflexivity|].
  assert (Hc : forall x, captures_at (color q) target x = false).
  { intros x. unfold captures_at. rewrite Hs. apply andb_false_r. }
  rewrite map_ext_id by (intros x _; rewrite Hc; reflexivity).
  rewrite set_positions_id.
  f_equal. induction (positions q) as [|x l IH]; simpl; [reflexivity|]. rewrite Hc. exact IH.
Qed.

Lemma existsb_snd_all_false {A : Type} (f : A -> A * bool) (l : list A) :
  (forall x, snd (f x) = false) -> existsb snd (map f l) = false.
Proof.
  intros H. induction l as [|x l IH]; simpl; [reflexivity|]. rewrite H, IH. reflexivity.
Qed.

Lemma performMove_unfold (ps : list Player) (t : nat) (p : Player) (k : nat) (roll pos : Z) :
  positions p !! k = Some pos ->
  performMove ps t p k roll =
    let newPos := destination pos roll in
    let '(ps1, captured) :=
      if newPos <=? 51 then
        let res := map (capture_player (id p) (computeGlobalIndex (color p) newPos)) ps in
        (map fst res, existsb snd res)
      else (ps, false) in
    let player' := set_positions (<[k := newPos]> (positions p)) p in
    Some (<[t := player']> ps1, player', captured, bool_decide (newPos = 57)).
Proof. intros Hk. unfold performMove. rewrite Hk. reflexivity. Qed.

Lemma lookup_other_player (ps : list Player) (t j : nat) (p q x : Player) :
  ps !! t = Some p -> ps !! j = Some q -> id q <> id p ->
  forall ps1 : list Player, <[t := x]> ps1 !! j = ps1 !! j.
Proof.
  intros Ht Hj Hne ps1. apply list_lookup_insert_ne.
  intros ->. rewrite Ht in Hj. injection Hj as ->. contradiction.
Qed.

(** C8: a move whose destination has a safe global index captures nothing and
    leaves every other player as it was, even one standing on that index;
    on a non-safe main-track destination every token of another player on the
    main track at the same global index is sent home ([-1]) and the move
    reports a capture. *)
Theorem performMove_capture_rule (ps : list Player) (t : nat) (p : Player) (k : nat)
    (roll pos : Z) (ps' : list Player) (p' : Player) (cap fin : bool) :
  ps !! t = Some p -> positions p !! k = Some pos ->
  performMove ps t p k roll = Some (ps', p', cap, fin) ->
  let target := computeGlobalIndex (color p) (destination pos roll) in
  (safe_includes target = true ->
     cap = false /\
     forall (j : nat) (q : Player), ps !! j = Some q -> id q <> id p -> ps' !! j = Some q) /\
  (destination pos roll <= 51 -> safe_includes target = false ->
     forall (j : nat) (q : Player) (i : nat) (oppPos : Z),
       ps !! j = Some q -> id q <> id p -> positions q !! i = Some oppPos ->
       0 <= oppPos <= 51 -> num_eqb (computeGlobalIndex (color q) oppPos) target = true ->
       cap = true /\ exists q', ps' !! j = Some q' /\ positions q' !! i = Some (-1)).
Proof.
  intros Ht Hk Hpm target. rewrite (performMove_unfold ps t p k roll pos Hk) in Hpm.
  cbv zeta in Hpm. fold target in Hpm. split.
  - intros Hs. destruct (destination pos roll <=? 51).
    + injection Hpm as <- _ <- _.
      rewrite (existsb_snd_all_false _ _ (fun q => f_equal snd (capture_player_safe _ _ q Hs))).
      split; [reflexivity|]. intros j q Hj Hne.
      rewrite (lookup_other_player ps t j p q _ Ht Hj Hne).
      rewrite lookup_map_option, lookup_map_option, Hj. simpl.
      rewrite capture_player_safe by exact Hs. reflexivity.
    + injection Hpm as <- _ <- _. split; [reflexivity|]. intros j q Hj Hne.
      rewrite (lookup_other_player ps t j p q _ Ht Hj Hne). exact Hj.
  - intros Hle Hs j q i oppPos Hj Hne Hi Hrange Heq.
    apply Z.leb_le in Hle. rewrite Hle in Hpm. injection Hpm as <- _ <- _.
    assert (Hc : captures_at (color q) target oppPos = true).
    { unfold captures_at. rewrite Heq, Hs.
      destruct Hrange as [H0 H51]. apply Z.leb_le in H0, H51. rewrite H0, H51. reflexivity. }
    assert (Hq : capture_player (id p) target q =
                 (set_positions (map (fun x => if captures_at (color q) target x then -1 else x)
                                     (positions q)) q,
                  existsb (captures_at (color q) target) (positions q))).
    { unfold capture_player. apply String.eqb_neq in Hne. rewrite Hne. reflexivity. }
    split.
    + apply existsb_exists. exists (capture_player (id p) target q). split.
      * apply in_map. eapply list_elem_of_In, list_elem_of_lookup_2; eauto.
      * rewrite Hq. simpl. apply existsb_exists. exists oppPos. split; [|exact Hc].
        eapply list_elem_of_In, list_elem_of_lookup_2; eauto.
    + rewrite (lookup_other_player ps t j p q _ Ht Hj Hne).
      rewrite lookup_map_option, lookup_map_option, Hj. simpl. rewrite Hq. simpl.
      eexists; split; [reflexivity|]. simpl.
      rewrite lookup_map_option, Hi. simpl. rewrite Hc. reflexivity.
Qed.

Definition red_a (ps : list Z) : Player := mkPlayer "a" "A" (Some "red") true ps.
Definition green_b (ps : list Z) : Player := mkPlayer "b" "B" (Some "green") true ps.

Lemma performMove_capture_rule_witness :
  (([red_a [3; -1; -1; -1]; green_b [46; -1; -1; -1]] !! 0%nat = Some (red_a [3; -1; -1; -1]) /\
    positions (red_a [3; -1; -1; -1]) !! 0%nat = Some 3) /\
   performMove [red_a [3; -1; -1; -1]; green_b [46; -1; -1; -1]] 0 (red_a [3; -1; -1; -1]) 0 4 =
     Some ([red_a [7; -1; -1; -1]; green_b [-1; -1; -1; -1]], red_a [7; -1; -1; -1], true, false)) /\
  exists q', [red_a [7; -1; -1; -1]; green_b [-1; -1; -1; -1]] !! 1%nat = Some q' /\
             positions q' !! 0%nat = Some (-1).
Proof.
  assert (H1 : [red_a [3; -1; -1; -1]; green_b [46; -1; -1; -1]] !! 0%nat = Some (red_a [3; -1; -1; -1]))
    by reflexivity.
  assert (H2 : positions (red_a [3; -1; -1; -1]) !! 0%nat = Some 3) by reflexivity.
  assert (H3 : performMove [red_a [3; -1; -1; -1]; green_b [46; -1; -1; -1]] 0 (red_a [3; -1; -1; -1]) 0 4 =
     Some ([red_a [7; -1; -1; -1]; green_b [-1; -1; -1; -1]], red_a [7; -1; -1; -1], true, false))
    by (vm_compute; reflexivity).
  split; [auto|].
  destruct (performMove_capture_rule _ _ _ _ 4 3 _ _ _ _ H1 H2 H3) as [_ Hcap].
  destruct (Hcap ltac:(vm_compute; discriminate) ltac:(vm_compute; reflexivity)
              1%nat (green_b [46; -1; -1; -1]) 0%nat 46 eq_refl ltac:(discriminate) eq_refl
              ltac:(lia) ltac:(vm_compute; reflexivity)) as [_ Hq].
  exact Hq.
Defined.

(** ** Joining *)

Lemma includes_color_spec (taken : list (option string)) (x : option string) :
  includes_color taken x = true <-> In x taken.
Proof.
  unfold includes_color. rewrite existsb_exists. split.
  - intros (y & Hy & E). apply bool_decide_eq_true in E. subst. exact Hy.
  - intros H. exists x. split; [exact H | apply bool_decide_eq_true; reflexivity].
Qed.

Lemma find_first {A : Type} (f : A -> bool) (l : list A) (i : nat) (x : A) :
  l !! i = Some x -> f x = true ->
  (forall (j : nat) (y : A), (j < i)%nat -> l !! j = Some y -> f y = false) ->
  List.find f l = Some x.
Proof.
  revert i. induction l as [|a l IH]; intros i Hi Hx Hbefore; [discriminate|].
  destruct i as [|i]; simpl in *.
  - injection Hi as ->. rewrite Hx. reflexivity.
  - rewrite (Hbefore 0%nat a ltac:(lia) eq_refl).
    apply (IH i Hi Hx). intros j y Hj Hy. apply (Hbefore (S j) y); [lia | exact Hy].
Qed.

Lemma find_all_false {A : Type} (f : A -> bool) (l : list A) :
  (forall x, In x l -> f x = false) -> List.find f l = None.
Proof.
  induction l as [|a l IH]; intros H; simpl; [reflexivity|].
  rewrite H by (left; reflexivity). apply IH. intros x Hx. apply H. right; exact Hx.
Qed.

(** Four players, one per color. *)
Definition session_four : list Request :=
  [ReqJoin "A" "" "a"; ReqJoin "B" "" "b"; ReqJoin "C" "" "c"; ReqJoin "D" "" "d"].

(** C2 (as stated, refuted): a join into a room whose four colors are taken
    does not fail; a fifth player with an undefined color is appended. *)
Lemma join_full_room_appends :
  let r := room_after session_four in
  exists r' outs,
    reachable r /\
    map color (players r) = [Some "red"; Some "green"; Some "yellow"; Some "blue"]%string /\
    handle r (ReqJoin "E" "" "e") = Some (r', outs) /\
    length (players r') = 5%nat /\
    players r' !! 4%nat = Some (mkPlayer "e" "E" None false [-1; -1; -1; -1]) /\
    Forall (fun o => forall m, o <> ToSender (ErrorMsg m)) outs.
Proof.
  intros r. eexists _, _. split.
  - apply room_after_reachable. repeat constructor.
  - split; [vm_compute; reflexivity|]. split; [vm_compute; reflexivity|].
    split; [vm_compute; reflexivity|]. split; [vm_compute; reflexivity|].
    vm_compute. repeat constructor; discriminate.
Qed.

(** C2 (amended): a join into a room that has not started always appends one
    player. If the requested color is empty or already taken, the color is the
    first unused one of red, green, yellow, blue, and is undefined ([None])
    when all four are taken; otherwise the requested color is kept. *)
Theorem join_color_resolution (r : Room) (nm c pid : string) :
  gameStarted r = false ->
  let taken := map color (players r) in
  exists r' outs chosen,
    handle r (ReqJoin nm c pid) = Some (r', outs) /\
    players r' = players r ++ [mkPlayer pid (if String.eqb nm "" then default_name r else nm)
                                         chosen false [-1; -1; -1; -1]] /\
    ((c = ""%string \/ In (Some c) taken) ->
       (forall col, In col COLORS -> In (Some col) taken) -> chosen = None) /\
    ((c = ""%string \/ In (Some c) taken) ->
       forall (i : nat) (col : string), COLORS !! i = Some col -> ~ In (Some col) taken ->
       (forall (j : nat) (col' : string), (j < i)%nat -> COLORS !! j = Some col' ->
          In (Some col') taken) ->
       chosen = Some col) /\
    (c <> ""%string -> ~ In (Some c) taken -> chosen = Some c).
Proof.
  intros Hst taken. unfold handle, handle_join. rewrite Hst.
  eexists _, _, (chooseColor taken c). split; [reflexivity|]. split; [reflexivity|].
  unfold chooseColor.
  assert (Hpre : c = ""%string \/ In (Some c) taken ->
                 (String.eqb c "" || includes_color taken (Some c)) = true).
  { intros [->|H]; [reflexivity|]. apply orb_true_iff. right. apply includes_color_spec, H. }
  split; [|split].
  - intros Hc Hall. rewrite (Hpre Hc). apply find_all_false.
    intros x Hx. apply negb_false_iff, includes_color_spec, Hall, Hx.
  - intros Hc i col Hi Hnot Hbefore. rewrite (Hpre Hc).
    apply (find_first _ _ i col Hi).
    + apply negb_true_iff. destruct (includes_color taken (Some col)) eqn:E; [|reflexivity].
      apply includes_color_spec in E. contradiction.
    + intros j y Hj Hy. apply negb_false_iff, includes_color_spec. eapply Hbefore; eauto.
  - intros Hne Hnot.
    destruct (String.eqb c "") eqn:E1; [apply String.eqb_eq in E1; contradiction|].
    destruct (includes_color taken (Some c)) eqn:E2;
      [apply includes_color_spec in E2; contradiction|reflexivity].
Qed.

Lemma join_color_resolution_witness :
  gameStarted room_lobby = false /\
  exists r' outs,
    handle room_lobby (ReqJoin "B" "red" "b") = Some (r', outs) /\
    players r' = players room_lobby ++ [mkPlayer "b" "B" (Some "green") false [-1; -1; -1; -1]].
Proof.
  split; [reflexivity|].
  destruct (join_color_resolution room_lobby "B" "red" "b" eq_refl)
    as (r' & outs & chosen & Hh & Hps & _ & Hfirst & _).
  assert (Hch : chosen = Some "green"%string).
  { apply (Hfirst (or_intror (or_introl eq_refl)) 1%nat "green"%string eq_refl).
    - simpl. intros [H|[]]. discriminate.
    - intros j col' Hj Hc. destruct j as [|j]; [|lia]. injection Hc as <-. left; reflexivity. }
  exists r', outs. split; [exact Hh|]. rewrite Hps, Hch. reflexivity.
Defined.

(** ** Requests in a started room *)

Lemma handle_move_cases (r : Room) (s : string) (k : nat) (r' : Room) (outs : list Out) :
  handle_move r s k = Some (r', outs) ->
  r' = r \/
  exists p ps1 p1 cap fin,
    players r !! turnIndex r = Some p /\
    existsb (Nat.eqb k) (computeMovableTokens p (currentRoll r)) = true /\
    performMove (players r) (turnIndex r) p k (currentRoll r) = Some (ps1, p1, cap, fin) /\
    players r' = ps1 /\ gameStarted r' = gameStarted r /\ currentRoll r' = 0 /\
    (exists q, players r' !! turnIndex r' = Some q).
Proof.
  unfold handle_move.
  destruct (players r !! turnIndex r) as [p|] eqn:Hp; [|discriminate].
  destruct (String.eqb (id p) s) eqn:Hs; cbn [negb];
    [|intros H; injection H as <- _; auto].
  apply String.eqb_eq in Hs. subst s.
  destruct (existsb (Nat.eqb k) _) eqn:Hav; cbn [negb];
    [|intros H; injection H as <- _; auto].
  destruct (performMove _ _ _ _ _) as [[[[ps1 p1] cap] fin]|] eqn:Hpm; [|discriminate].
  intros H. right.
  destruct (handle_move_executed r p k ps1 p1 cap fin Hp Hav Hpm)
    as (r2 & q & mid & Hh & Hps & Hcr & Hg & Hq & _).
  unfold handle, handle_move in Hh. rewrite Hp, String.eqb_refl, Hav, Hpm in Hh.
  cbn [negb] in Hh. rewrite H in Hh. injection Hh as <- _.
  exists p, ps1, p1, cap, fin. eauto 8.
Qed.

Definition all_ready (ps : list Player) : Prop := Forall (fun p => ready p = true) ps.

Lemma performMove_all_ready (ps : list Player) (t : nat) (p : Player) (k : nat) (roll : Z)
    (ps1 : list Player) (p1 : Player) (cap fin : bool) :
  all_ready ps -> ps !! t = Some p ->
  performMove ps t p k roll = Some (ps1, p1, cap, fin) -> all_ready ps1.
Proof.
  intros Hall Ht Hpm. unfold performMove in Hpm.
  destruct (positions p !! k) as [pos|]; [|discriminate].
  assert (Hp : ready p = true).
  { unfold all_ready in Hall. rewrite Forall_lookup in Hall. eapply Hall; eauto. }
  destruct (destination pos roll <=? 51); injection Hpm as <- _ _ _;
    apply Forall_insert; try exact Hp.
  - unfold all_ready. rewrite Forall_map, Forall_map.
    eapply Forall_impl; [exact Hall|]. intros q Hq. simpl.
    unfold capture_player. destruct (String.eqb _ _); exact Hq.
  - exact Hall.
Qed.

Definition ready_inv (r : Room) : Prop := gameStarted r = true -> all_ready (players r).

Lemma handle_ready_inv (r : Room) (q : Request) (r' : Room) (outs : list Out) :
  ready_inv r -> handle r q = Some (r', outs) -> ready_inv r'.
Proof.
  unfold ready_inv. intros Hinv. destruct q as [nm c pid|s|s|s die|s k|s]; simpl.
  - unfold handle_join. destruct (gameStarted r) eqn:Hg; intros H; injection H as <- _.
    + intros _. apply Hinv. reflexivity.
    + simpl. rewrite Hg. discriminate.
  - unfold handle_ready. intros H; injection H as <- _. simpl. intros Hg.
    unfold all_ready. rewrite Forall_map.
    specialize (Hinv Hg). eapply Forall_impl; [exact Hinv|].
    intros q Hq. destruct (String.eqb _ _); [reflexivity|exact Hq].
  - unfold handle_start. destruct (gameStarted r) eqn:Hg0.
    { intros H; injection H as <- _. intros _. apply Hinv. reflexivity. }
    destruct (length (players r) <? 2)%nat; [intros H; injection H as <- _; congruence|].
    destruct (forallb ready (players r)) eqn:Hf; cbn [negb];
      [|intros H; injection H as <- _; congruence].
    destruct (_ !! 0%nat); [|discriminate]. intros H; injection H as <- _. intros _.
    unfold all_ready. apply Forall_forall. intros x Hx.
    rewrite forallb_forall in Hf. apply Hf, list_elem_of_In, Hx.
  - unfold handle_roll. destruct (players r !! turnIndex r) as [p|] eqn:Hp; [|discriminate].
    destruct (String.eqb (id p) s) eqn:Hs; cbn [negb]; [|intros H; injection H as <- _; exact Hinv].
    apply String.eqb_eq in Hs. subst s. intros H.
    destruct (handle_roll_accepted r p die Hp) as (r2 & o2 & Hh & Hps & _ & _ & Hg & _).
    unfold handle, handle_roll in Hh. rewrite Hp, String.eqb_refl in Hh. cbn [negb] in Hh.
    rewrite H in Hh. injection Hh as <- _. rewrite Hps, Hg. exact Hinv.
  - intros H. destruct (handle_move_cases _ _ _ _ _ H) as [->|Hm]; [exact Hinv|].
    destruct Hm as (p & ps1 & p1 & cap & fin & Hp & _ & Hpm & Hps & Hg & _).
    rewrite Hps, Hg. intros Hs. eapply performMove_all_ready; eauto.
  - unfold handle_close. intros H; injection H as <- _.
    destruct (_ <=? _)%nat; simpl; intros Hg; specialize (Hinv Hg);
      unfold all_ready in *; apply Forall_forall; intros x Hx;
      apply list_elem_of_In, filter_In in Hx;
      rewrite Forall_forall in Hinv; apply Hinv, list_elem_of_In, Hx.
Qed.

Lemma reachable_ready_inv (r : Room) : reachable r -> ready_inv r.
Proof.
  induction 1 as [rid|r q r' outs _ IH _ Hh].
  - unfold ready_inv. simpl. discriminate.
  - eapply handle_ready_inv; eauto.
Qed.

(** C3 (as stated, refuted): once the game has started, a [ready] request
    is not rejected: it is handled and broadcasts [player_list]. *)
Lemma ready_after_start_broadcasts :
  let r := room_after session_start in
  reachable r /\ gameStarted r = true /\
  handle r (ReqReady "a") =
    Some (r, [Broadcast (PlayerList [("a", "A", Some "red", true);
                                     ("b", "B", Some "green", true)]%string)]).
Proof.
  intros r. split.
  - apply room_after_reachable. repeat constructor.
  - split; vm_compute; reflexivity.
Qed.

Lemma set_players_same (r : Room) : set_players (players r) r = r.
Proof. destruct r; reflexivity. Qed.

(** C3 (amended): in a reachable room that has started, a [join] is rejected
    with an error sent to the sender only and the roster unchanged; a [ready]
    request changes nothing (every player is already ready) but still
    broadcasts the [player_list]. *)
Theorem started_room_join_ready (r : Room) :
  reachable r -> gameStarted r = true ->
  (forall nm c pid : string,
     handle r (ReqJoin nm c pid) =
       Some (r, [ToSender (ErrorMsg "Game already started for this room")])) /\
  (forall s : string,
     handle r (ReqReady s) = Some (r, [Broadcast (PlayerList (map player_info (players r)))])).
Proof.
  intros Hr Hg. split.
  - intros nm c pid. simpl. unfold handle_join. rewrite Hg. reflexivity.
  - intros s. simpl. unfold handle_ready.
    assert (Hall : all_ready (players r)) by (apply (reachable_ready_inv r Hr Hg)).
    rewrite (map_ext_id _ (players r)); [rewrite set_players_same; reflexivity|].
    intros q Hq. destruct (String.eqb (id q) s); [|reflexivity].
    unfold all_ready in Hall. rewrite Forall_forall in Hall.
    assert (Hrq : ready q = true) by (apply Hall, list_elem_of_In, Hq).
    destruct q; simpl in *; subst; reflexivity.
Qed.

Lemma started_room_join_ready_witness :
  (reachable (room_after session_start) /\ gameStarted (room_after session_start) = true) /\
  handle (room_after session_start) (ReqJoin "C" "" "c") =
    Some (room_after session_start, [ToSender (ErrorMsg "Game already started for this room")]).
Proof.
  assert (Hr : reachable (room_after session_start))
    by (apply room_after_reachable; repeat constructor).
  assert (Hg : gameStarted (room_after session_start) = true) by (vm_compute; reflexivity).
  split; [split; assumption|].
  apply (started_room_join_ready _ Hr Hg).
Defined.

(** ** Finished tokens *)

(** [a] moves its token 0 five cells at a time ([b] rolls a 1 in between,
    which has no legal move and passes back), then rolls a 2 that brings the
    token to 57: [a] gets another roll and [currentRoll] is back to 0. *)
Definition a_step_five : list Request := [ReqRoll "a" 5; ReqMove "a" 0; ReqRoll "b" 1].

Definition session_finish : list Request :=
  session_extra_turn ++ concat (repeat a_step_five 11) ++ [ReqRoll "a" 2; ReqMove "a" 0].

(** For any real die value a finished token is not movable. *)
Lemma finished_token_not_movable_on_die (die : Z) :
  1 <= die -> token_movable 57 die = false.
Proof.
  intros H. unfold token_movable. simpl. apply Z.leb_gt. lia.
Qed.

(** C9 (code): with no roll outstanding ([currentRoll = 0]), the move handler
    recomputes the legal moves from 0 and lists a token at 57; the request is
    executed, the token stays at 57, the move is reported as finishing it
    again and the player keeps the turn. *)
Theorem finished_token_listed_without_roll :
  let r := room_after session_finish in
  let pa := mkPlayer "a" "A" (Some "red") true [57; -1; -1; -1] in
  reachable r /\ players r !! turnIndex r = Some pa /\ currentRoll r = 0 /\
  computeMovableTokens pa (currentRoll r) = [0%nat] /\
  handle r (ReqMove "a" 0) =
    Some (r, [Broadcast (StateUpdate "a" [57; -1; -1; -1] 0 0 false true);
              Broadcast (TurnMsg "a")]).
Proof.
  intros r pa. split.
  - apply room_after_reachable.
    cbv [session_finish session_extra_turn session_start a_step_five concat repeat app].
    repeat constructor; lia.
  - split; [vm_compute; reflexivity|]. split; [vm_compute; reflexivity|].
    split; vm_compute; reflexivity.
Qed.

(** A token at 57 never moves again: [currentRoll] stays within [0..6], so
    57 is only ever listed with a roll of 0, which leaves it at 57; captures
    only touch main-track tokens. *)
Definition roll_inv (r : Room) : Prop := 0 <= currentRoll r <= 6.

Lemma handle_roll_inv (r : Room) (q : Request) (r' : Room) (outs : list Out) :
  valid_request q -> roll_inv r -> handle r q = Some (r', outs) -> roll_inv r'.
Proof.
  unfold roll_inv. intros Hv Hinv. destruct q as [nm c pid|s|s|s die|s k|s]; simpl in *.
  - unfold handle_join. destruct (gameStarted r); intros H; injection H as <- _; exact Hinv.
  - unfold handle_ready. intros H; injection H as <- _. exact Hinv.
  - unfold handle_start. destruct (gameStarted r); [intros H; injection H as <- _; exact Hinv|].
    destruct (length (players r) <? 2)%nat; [intros H; injection H as <- _; exact Hinv|].
    destruct (negb _); [intros H; injection H as <- _; exact Hinv|].
    destruct (_ !! 0%nat); [|discriminate]. intros H; injection H as <- _. simpl. lia.
  - unfold handle_roll. destruct (players r !! turnIndex r) as [p|] eqn:Hp; [|discriminate].
    destruct (String.eqb (id p) s) eqn:Hs; cbn [negb]; [|intros H; injection H as <- _; exact Hinv].
    apply String.eqb_eq in Hs. subst s. intros H.
    destruct (handle_roll_accepted r p die Hp) as (r2 & o2 & Hh & _ & Hcr & _).
    unfold handle, handle_roll in Hh. rewrite Hp, String.eqb_refl in Hh. cbn [negb] in Hh.
    rewrite H in Hh. injection Hh as <- _. rewrite Hcr. lia.
  - intros H. destruct (handle_move_cases _ _ _ _ _ H) as [->|Hm]; [exact Hinv|].
    destruct Hm as (p & ps1 & p1 & cap & fin & _ & _ & _ & _ & _ & Hcr & _). rewrite Hcr. lia.
  - unfold handle_close. intros H; injection H as <- _.
    destruct (_ <=? _)%nat; exact Hinv.
Qed.

Lemma reachable_roll_inv (r : Room) : reachable r -> roll_inv r.
Proof.
  induction 1 as [rid|r q r' outs _ IH Hv Hh].
  - unfold roll_inv. simpl. lia.
  - eapply handle_roll_inv; eauto.
Qed.

Lemma movable_from_spec (i k : nat) (ps : list Z) (roll : Z) :
  In k (movable_from i ps roll) ->
  (i <= k)%nat /\ exists pos, ps !! (k - i)%nat = Some pos /\ token_movable pos roll = true.
Proof.
  revert i. induction ps as [|x ps IH]; intros i H; simpl in H; [contradiction|].
  destruct (token_movable x roll) eqn:Ex; [destruct H as [<-|H]|].
  - split; [lia|]. exists x. rewrite Nat.sub_diag. auto.
  - destruct (IH (S i) H) as [Hle [pos [Hl Hm]]]. split; [lia|].
    exists pos. replace (k - i)%nat with (S (k - S i)) by lia. auto.
  - destruct (IH (S i) H) as [Hle [pos [Hl Hm]]]. split; [lia|].
    exists pos. replace (k - i)%nat with (S (k - S i)) by lia. auto.
Qed.

Lemma finished_movable_roll (roll : Z) :
  0 <= roll -> token_movable 57 roll = true -> roll = 0.
Proof. intros H0 H. unfold token_movable in H. simpl in H. apply Z.leb_le in H. lia. Qed.

Lemma captures_at_finished (c : option string) (target : jsnum) :
  captures_at c target 57 = false.
Proof. reflexivity. Qed.

Definition keeps57 (p p' : Player) : Prop :=
  forall i : nat, positions p !! i = Some 57 -> positions p' !! i = Some 57.

Lemma performMove_keeps57 (ps : list Player) (t : nat) (p : Player) (k : nat) (roll : Z)
    (ps1 : list Player) (p1 : Player) (cap fin : bool) :
  ps !! t = Some p -> (positions p !! k = Some 57 -> roll = 0) ->
  performMove ps t p k roll = Some (ps1, p1, cap, fin) ->
  forall (j : nat) (p' : Player), ps1 !! j = Some p' ->
    exists p0, ps !! j = Some p0 /\ id p0 = id p' /\ keeps57 p0 p'.
Proof.
  intros Ht H57 Hpm j p' Hj.
  destruct (positions p !! k) as [pos|] eqn:Hk; [|unfold performMove in Hpm; rewrite Hk in Hpm; discriminate].
  rewrite (performMove_unfold ps t p k roll pos Hk) in Hpm. cbv zeta in Hpm.
  set (l := if destination pos roll <=? 51
            then map fst (map (capture_player (id p) (computeGlobalIndex (color p) (destination pos roll))) ps)
            else ps).
  assert (Hl : ps1 = <[t := set_positions (<[k := destination pos roll]> (positions p)) p]> l).
  { unfold l. destruct (destination pos roll <=? 51); injection Hpm as <- _ _ _; reflexivity. }
  rewrite Hl in Hj. apply list_lookup_insert_Some in Hj as [(<- & <- & _)|(Hne & Hj)].
  - exists p. split; [exact Ht|]. split; [reflexivity|].
    intros i Hi. simpl. destruct (decide (i = k)) as [->|Hik].
    + rewrite Hk in Hi. injection Hi as ->. rewrite (H57 eq_refl).
      apply list_lookup_insert_eq. eapply lookup_lt_Some; eauto.
    + rewrite list_lookup_insert_ne by congruence. exact Hi.
  - unfold l in Hj. destruct (destination pos roll <=? 51).
    + rewrite lookup_map_option, lookup_map_option in Hj.
      destruct (ps !! j) as [q|] eqn:Hq; [|discriminate]. simpl in Hj. injection Hj as <-.
      exists q. split; [reflexivity|]. unfold capture_player.
      destruct (String.eqb (id q) (id p)); [split; [reflexivity|intros i Hi; exact Hi]|].
      split; [reflexivity|]. intros i Hi. simpl.
      rewrite lookup_map_option, Hi. cbn [option_map]. rewrite captures_at_finished. reflexivity.
    + exists p'. split; [exact Hj|]. split; [reflexivity|]. intros i Hi; exact Hi.
Qed.

(** In a reachable room, every request keeps each token at 57 at 57: every
    player afterwards is either the one a join request just added (its id is
    the join's, the room was not started, all tokens at home) or has a player
    of the room before with the same id, all of whose tokens at 57 are still
    at 57. *)
Theorem finished_token_stays (r : Room) (q : Request) (r' : Room) (outs : list Out) :
  reachable r -> valid_request q -> handle r q = Some (r', outs) ->
  forall p', In p' (players r') ->
    (exists nm c, q = ReqJoin nm c (id p') /\ gameStarted r = false /\
                  positions p' = [-1; -1; -1; -1]) \/
    exists p, In p (players r) /\ id p = id p' /\ keeps57 p p'.
Proof.
  intros Hr Hv Hh p' Hin.
  assert (Hself : forall x, In x (players r) -> exists p, In p (players r) /\ id p = id x /\ keeps57 p x)
    by (intros x Hx; exists x; split; [exact Hx|split; [reflexivity|intros i Hi; exact Hi]]).
  destruct q as [nm c pid|s|s|s die|s k|s]; simpl in Hh.
  - unfold handle_join in Hh. destruct (gameStarted r) eqn:Hg; injection Hh as <- _; [right; auto|].
    simpl in Hin. apply in_app_or in Hin as [Hin|[<-|[]]]; [right; auto|].
    left. exists nm, c. simpl. auto.
  - unfold handle_ready in Hh. injection Hh as <- _. simpl in Hin.
    apply in_map_iff in Hin as (x & <- & Hx). right. exists x. split; [exact Hx|].
    destruct (String.eqb (id x) s); split; try reflexivity; intros i Hi; exact Hi.
  - unfold handle_start in Hh. right. apply Hself.
    destruct (gameStarted r); [injection Hh as <- _; exact Hin|].
    destruct (length (players r) <? 2)%nat; [injection Hh as <- _; exact Hin|].
    destruct (negb _); [injection Hh as <- _; exact Hin|].
    destruct (_ !! 0%nat); [|discriminate]. injection Hh as <- _. exact Hin.
  - right. apply Hself. unfold handle_roll in Hh.
    destruct (players r !! turnIndex r) as [p|] eqn:Hp; [|discriminate].
    destruct (String.eqb (id p) s) eqn:Hs; cbn [negb] in Hh; [|injection Hh as <- _; exact Hin].
    apply String.eqb_eq in Hs. subst s.
    destruct (handle_roll_accepted r p die Hp) as (r2 & o2 & Hh2 & Hps & _).
    unfold handle, handle_roll in Hh2. rewrite Hp, String.eqb_refl in Hh2. cbn [negb] in Hh2.
    rewrite Hh in Hh2. injection Hh2 as <- _. rewrite <- Hps. exact Hin.
  - destruct (handle_move_cases _ _ _ _ _ Hh) as [->|Hm]; [right; auto|].
    destruct Hm as (p & ps1 & p1 & cap & fin & Hp & Hav & Hpm & Hps & _).
    right. rewrite Hps in Hin.
    apply list_elem_of_In, list_elem_of_lookup_1 in Hin as [j Hj].
    assert (H57 : positions p !! k = Some 57 -> currentRoll r = 0).
    { intros Hk. apply existsb_exists in Hav as (k' & Hk' & E). apply Nat.eqb_eq in E. subst k'.
      apply movable_from_spec in Hk' as [_ (pos & Hpos & Hm)].
      rewrite Nat.sub_0_r, Hk in Hpos. injection Hpos as <-.
      apply finished_movable_roll; [|exact Hm]. apply (reachable_roll_inv r Hr). }
    destruct (performMove_keeps57 _ _ _ _ _ _ _ _ _ Hp H57 Hpm j p' Hj) as (p0 & Hp0 & Hid & Hk).
    exists p0. split; [|auto]. apply list_elem_of_In. eapply list_elem_of_lookup_2; eauto.
  - unfold handle_close in Hh. injection Hh as <- _. right. apply Hself.
    assert (Hin' : In p' (List.filter (fun q => negb (String.eqb (id q) s)) (players r))).
    { destruct (_ <=? _)%nat; exact Hin. }
    apply filter_In in Hin' as [Hin' _]. exact Hin'.
Qed.

(** ** Further properties of the server *)

(** What [performMove] does to the other entries of the roster. *)
Definition other_after (dest : Z) (p q : Player) : Player :=
  if dest <=? 51 then fst (capture_player (id p) (computeGlobalIndex (color p) dest) q) else q.

Lemma performMove_shape (ps : list Player) (t : nat) (p : Player) (k : nat) (roll pos : Z)
    (ps1 : list Player) (p1 : Player) (cap fin : bool) :
  positions p !! k = Some pos ->
  performMove ps t p k roll = Some (ps1, p1, cap, fin) ->
  ps1 = <[t := p1]> (map (other_after (destination pos roll) p) ps) /\
  p1 = set_positions (<[k := destination pos roll]> (positions p)) p /\
  fin = bool_decide (destination pos roll = 57) /\
  cap = (destination pos roll <=? 51) &&
        existsb snd (map (capture_player (id p) (computeGlobalIndex (color p) (destination pos roll))) ps).
Proof.
  intros Hk Hpm. rewrite (performMove_unfold ps t p k roll pos Hk) in Hpm. cbv zeta in Hpm.
  unfold other_after.
  destruct (destination pos roll <=? 51); injection Hpm as <- <- <- <-.
  - rewrite map_map. auto.
  - rewrite List.map_id. auto.
Qed.

(** The destination of a listed token, for a roll in [0..6], stays in [0..57];
    the final-lane remap [51 + (newPos - 51)] is [pos + roll] itself. *)
Lemma destination_spec (pos roll : Z) :
  destination pos roll = (if pos =? -1 then 0 else pos + roll).
Proof.
  unfold destination. destruct (pos =? -1); [reflexivity|].
  destruct ((pos <? 52) && (51 <? pos + roll)); lia.
Qed.

Definition pos_ok (x : Z) : Prop := x = -1 \/ 0 <= x <= 57.

Lemma destination_in_range (pos roll : Z) :
  pos_ok pos -> 0 <= roll <= 6 -> token_movable pos roll = true ->
  0 <= destination pos roll <= 57.
Proof.
  intros Hp Hr Hm. rewrite destination_spec. unfold token_movable in Hm.
  destruct (pos =? -1) eqn:E; [lia|]. apply Z.eqb_neq in E.
  destruct Hp as [Hp|Hp]; [contradiction|].
  destruct (pos <? 52) eqn:E2.
  - destruct (pos + roll <=? 51) eqn:E3; [apply Z.leb_le in E3; lia|].
    apply Z.leb_le in Hm. lia.
  - apply Z.leb_le in Hm. lia.
Qed.

Lemma other_after_fields (d : Z) (p q : Player) :
  id (other_after d p q) = id q /\ name (other_after d p q) = name q /\
  color (other_after d p q) = color q /\ ready (other_after d p q) = ready q.
Proof.
  unfold other_after, capture_player.
  destruct (d <=? 51); [destruct (String.eqb (id q) (id p))|]; auto.
Qed.

Lemma other_after_positions (d : Z) (p q : Player) :
  positions (other_after d p q) =
  map (fun y => if (d <=? 51) && negb (String.eqb (id q) (id p))
                   && captures_at (color q) (computeGlobalIndex (color p) d) y
                then -1 else y) (positions q).
Proof.
  unfold other_after, capture_player.
  destruct (d <=? 51); [destruct (String.eqb (id q) (id p))|]; cbn [andb negb fst positions set_positions];
    try (symmetry; apply List.map_id); reflexivity.
Qed.

Lemma performMove_lookup (ps : list Player) (t : nat) (p : Player) (k : nat) (roll pos : Z)
    (ps1 : list Player) (p1 : Player) (cap fin : bool) :
  ps !! t = Some p -> positions p !! k = Some pos ->
  performMove ps t p k roll = Some (ps1, p1, cap, fin) ->
  length ps1 = length ps /\
  forall j : nat, ps1 !! j = if decide (j = t) then Some p1
                             else option_map (other_after (destination pos roll) p) (ps !! j).
Proof.
  intros Ht Hk Hpm. destruct (performMove_shape ps t p k roll pos ps1 p1 cap fin Hk Hpm) as (-> & _).
  split; [rewrite length_insert, length_map; reflexivity|].
  intros j. destruct (decide (j = t)) as [->|Hne].
  - apply list_lookup_insert_eq. rewrite length_map. eapply lookup_lt_Some; eauto.
  - rewrite list_lookup_insert_ne by congruence. apply lookup_map_option.
Qed.

(** Every player holds four tokens, each at home ([-1]) or on [0..57]. *)
Definition player_ok (p : Player) : Prop :=
  length (positions p) = 4%nat /\ Forall pos_ok (positions p).

Definition board_inv (r : Room) : Prop := Forall player_ok (players r).

Lemma player_ok_other_after (d : Z) (p q : Player) :
  player_ok q -> player_ok (other_after d p q).
Proof.
  intros [Hl Hf]. unfold player_ok. rewrite other_after_positions, length_map, Forall_map.
  split; [exact Hl|]. eapply Forall_impl; [exact Hf|]. intros y Hy.
  destruct (_ && _ && _); [left; reflexivity|exact Hy].
Qed.

Lemma handle_move_board_inv (r : Room) (s : string) (k : nat) (r' : Room) (outs : list Out) :
  roll_inv r -> board_inv r -> handle_move r s k = Some (r', outs) -> board_inv r'.
Proof.
  intros Hroll Hb H. destruct (handle_move_cases r s k r' outs H) as [->|Hc]; [exact Hb|].
  destruct Hc as (p & ps1 & p1 & cap & fin & Hp & Hav & Hpm & Hps & _).
  apply existsb_exists in Hav. destruct Hav as (k' & Hin & Heq). apply Nat.eqb_eq in Heq. subst k'.
  destruct (movable_from_spec 0 k (positions p) (currentRoll r) Hin) as (_ & pos & Hk & Hm).
  rewrite Nat.sub_0_r in Hk.
  assert (Hpok : player_ok p) by (unfold board_inv in Hb; rewrite Forall_lookup in Hb; eauto).
  assert (Hpos : pos_ok pos) by (destruct Hpok as [_ Hf]; rewrite Forall_lookup in Hf; eauto).
  destruct (performMove_shape _ _ _ _ _ pos _ _ _ _ Hk Hpm) as (Hps1 & Hp1 & _).
  unfold board_inv. rewrite Hps, Hps1. apply Forall_insert.
  - unfold board_inv in Hb. rewrite Forall_map. eapply Forall_impl; [exact Hb|].
    intros q Hq. apply player_ok_other_after. exact Hq.
  - rewrite Hp1. destruct Hpok as [Hl Hf]. unfold player_ok. cbn [positions set_positions].
    rewrite length_insert. split; [exact Hl|]. apply Forall_insert; [exact Hf|].
    right. apply destination_in_range; assumption.
Qed.

Lemma handle_board_inv (r : Room) (q : Request) (r' : Room) (outs : list Out) :
  roll_inv r -> board_inv r -> handle r q = Some (r', outs) -> board_inv r'.
Proof.
  unfold board_inv. intros Hroll Hb. destruct q as [nm c pid|s|s|s die|s k|s]; simpl.
  - unfold handle_join. destruct (gameStarted r); intros H; injection H as <- _; [exact Hb|].
    simpl. apply Forall_app; split; [exact Hb|]. repeat constructor; unfold pos_ok; lia.
  - unfold handle_ready. intros H; injection H as <- _. simpl. rewrite Forall_map.
    eapply Forall_impl; [exact Hb|]. intros q Hq. destruct (String.eqb _ _); [|exact Hq].
    destruct q; exact Hq.
  - unfold handle_start. destruct (gameStarted r); [intros H; injection H as <- _; exact Hb|].
    destruct (length (players r) <? 2)%nat; [intros H; injection H as <- _; exact Hb|].
    destruct (negb _); [intros H; injection H as <- _; exact Hb|].
    destruct (_ !! 0%nat); [|discriminate]. intros H; injection H as <- _. exact Hb.
  - unfold handle_roll. destruct (players r !! turnIndex r) as [p|] eqn:Hp; [|discriminate].
    destruct (String.eqb (id p) s) eqn:Hs; cbn [negb]; [|intros H; injection H as <- _; exact Hb].
    apply String.eqb_eq in Hs. subst s. intros H.
    destruct (handle_roll_accepted r p die Hp) as (r2 & o2 & Hh & Hpl & _).
    unfold handle, handle_roll in Hh. rewrite Hp, String.eqb_refl in Hh. cbn [negb] in Hh.
    rewrite H in Hh. injection Hh as -> _. rewrite Hpl. exact Hb.
  - apply handle_move_board_inv; unfold board_inv; assumption.
  - unfold handle_close. intros H; injection H as <- _.
    destruct (_ <=? _)%nat; simpl; apply Forall_forall; intros x Hx;
      apply list_elem_of_In, filter_In in Hx as [Hx _]; rewrite Forall_forall in Hb;
      apply Hb, list_elem_of_In, Hx.
Qed.

Lemma handle_move_cs (r : Room) (s : string) (k : nat) (r' : Room) (outs : list Out) :
  handle_move r s k = Some (r', outs) ->
  consecutiveSixes r' = consecutiveSixes r \/ consecutiveSixes r' = 0%nat.
Proof.
  unfold handle_move.
  destruct (players r !! turnIndex r) as [p|] eqn:Hp; [|discriminate].
  destruct (String.eqb (id p) s) eqn:Hs; cbn [negb];
    [|intros H; injection H as <- _; auto].
  apply String.eqb_eq in Hs. subst s.
  destruct (existsb (Nat.eqb k) _) eqn:Hav; cbn [negb];
    [|intros H; injection H as <- _; auto].
  destruct (performMove _ _ _ _ _) as [[[[ps1 p1] cap] fin]|] eqn:Hpm; [|discriminate].
  intros H.
  destruct (handle_move_executed r p k ps1 p1 cap fin Hp Hav Hpm)
    as (r2 & q & mid & Hh & _ & _ & _ & _ & Hx).
  unfold handle, handle_move in Hh. rewrite Hp, String.eqb_refl, Hav, Hpm in Hh. cbn [negb] in Hh.
  rewrite H in Hh. injection Hh as -> _.
  destruct (_ || _ || _); destruct Hx as [_ Hx]; auto.
Qed.

(** The count of consecutive sixes never reaches 3. *)
Definition sixes_inv (r : Room) : Prop := (consecutiveSixes r <= 2)%nat.

Lemma handle_sixes_inv (r : Room) (q : Request) (r' : Room) (outs : list Out) :
  sixes_inv r -> handle r q = Some (r', outs) -> sixes_inv r'.
Proof.
  unfold sixes_inv. intros Hinv. destruct q as [nm c pid|s|s|s die|s k|s]; simpl.
  - unfold handle_join. destruct (gameStarted r); intros H; injection H as <- _; exact Hinv.
  - unfold handle_ready. intros H; injection H as <- _. exact Hinv.
  - unfold handle_start. destruct (gameStarted r); [intros H; injection H as <- _; exact Hinv|].
    destruct (length (players r) <? 2)%nat; [intros H; injection H as <- _; exact Hinv|].
    destruct (negb _); [intros H; injection H as <- _; exact Hinv|].
    destruct (_ !! 0%nat); [|discriminate]. intros H; injection H as <- _. simpl. lia.
  - unfold handle_roll. destruct (players r !! turnIndex r) as [p|] eqn:Hp; [|discriminate].
    destruct (String.eqb (id p) s) eqn:Hs; cbn [negb]; [|intros H; injection H as <- _; exact Hinv].
    apply String.eqb_eq in Hs. subst s. intros H.
    destruct (handle_roll_accepted r p die Hp) as (r2 & o2 & Hh & _ & _ & Hcs & _).
    unfold handle, handle_roll in Hh. rewrite Hp, String.eqb_refl in Hh. cbn [negb] in Hh.
    rewrite H in Hh. injection Hh as -> _. rewrite Hcs.
    destruct (die =? 6); cbn [andb]; [|lia].
    destruct (3 <=? S (consecutiveSixes r))%nat eqn:E; [lia|]. apply Nat.leb_gt in E. lia.
  - intros H. destruct (handle_move_cs r s k r' outs H) as [-> | ->]; lia.
  - unfold handle_close. intros H; injection H as <- _. destruct (_ <=? _)%nat; exact Hinv.
Qed.

(** The defined colors of a roster, in order. *)
Fixpoint defined_colors (ps : list Player) : list string :=
  match ps with
  | [] => []
  | p :: ps' => match color p with
                | Some c => c :: defined_colors ps'
                | None => defined_colors ps'
                end
  end.

Definition colors_inv (r : Room) : Prop := NoDup (defined_colors (players r)).

Lemma defined_colors_map (l1 l2 : list Player) :
  map color l1 = map color l2 -> defined_colors l1 = defined_colors l2.
Proof.
  revert l2. induction l1 as [|x l1 IH]; intros [|y l2] H; simpl in H; try discriminate; [reflexivity|].
  injection H as Hxy Hl. simpl. rewrite Hxy, (IH l2 Hl). reflexivity.
Qed.

Lemma defined_colors_In (l : list Player) (c : string) :
  In c (defined_colors l) <-> In (Some c) (map color l).
Proof.
  induction l as [|x l IH]; simpl; [tauto|].
  destruct (color x) as [c'|]; simpl; rewrite IH.
  - split; intros [H|H]; auto; left; congruence.
  - split; [auto|]. intros [H|H]; [discriminate|exact H].
Qed.

Lemma defined_colors_app (l1 l2 : list Player) :
  defined_colors (l1 ++ l2) = defined_colors l1 ++ defined_colors l2.
Proof.
  induction l1 as [|x l1 IH]; simpl; [reflexivity|]. destruct (color x); rewrite IH; reflexivity.
Qed.

Lemma defined_colors_filter (f : Player -> bool) (l : list Player) :
  NoDup (defined_colors l) -> NoDup (defined_colors (List.filter f l)).
Proof.
  induction l as [|x l IH]; simpl; intros H; [exact H|].
  assert (Hsub : forall c, In c (defined_colors (List.filter f l)) -> In c (defined_colors l)).
  { intros c. rewrite !defined_colors_In. intros Hc. apply in_map_iff in Hc as (y & Hy & Hin).
    apply filter_In in Hin as [Hin _]. apply in_map_iff. eauto. }
  destruct (color x) as [c|] eqn:Hx.
  - apply NoDup_cons in H as [Hn H].
    destruct (f x); simpl; [rewrite Hx|]; [|apply IH, H].
    constructor; [|apply IH, H]. rewrite list_elem_of_In. rewrite list_elem_of_In in Hn.
    intros Hc. apply Hn, Hsub, Hc.
  - destruct (f x); simpl; [rewrite Hx|]; apply IH, H.
Qed.

Lemma performMove_colors (ps : list Player) (t : nat) (p : Player) (k : nat) (roll : Z)
    (ps1 : list Player) (p1 : Player) (cap fin : bool) :
  ps !! t = Some p -> performMove ps t p k roll = Some (ps1, p1, cap, fin) ->
  map color ps1 = map color ps.
Proof.
  intros Ht Hpm.
  destruct (positions p !! k) as [pos|] eqn:Hk; [|unfold performMove in Hpm; rewrite Hk in Hpm; discriminate].
  destruct (performMove_lookup ps t p k roll pos ps1 p1 cap fin Ht Hk Hpm) as [_ Hl].
  destruct (performMove_shape ps t p k roll pos ps1 p1 cap fin Hk Hpm) as (_ & Hp1 & _).
  apply list_eq. intros j. rewrite !lookup_map_option, Hl.
  destruct (decide (j = t)) as [->|Hne].
  - rewrite Ht, Hp1. reflexivity.
  - destruct (ps !! j) as [q|]; [|reflexivity]. simpl. f_equal. apply other_after_fields.
Qed.

(** The color a join assigns is never one already taken. *)
Lemma chooseColor_fresh (taken : list (option string)) (c c' : string) :
  chooseColor taken c = Some c' -> ~ In (Some c') taken.
Proof.
  unfold chooseColor. destruct (String.eqb c "" || includes_color taken (Some c)) eqn:E.
  - intros Hf. apply List.find_some in Hf as [_ Hf]. apply negb_true_iff in Hf.
    intros Hin. apply includes_color_spec in Hin. congruence.
  - intros H; injection H as <-. apply orb_false_iff in E as [_ E].
    intros Hin. apply includes_color_spec in Hin. congruence.
Qed.

Lemma handle_colors_inv (r : Room) (q : Request) (r' : Room) (outs : list Out) :
  colors_inv r -> handle r q = Some (r', outs) -> colors_inv r'.
Proof.
  unfold colors_inv. intros Hinv. destruct q as [nm c pid|s|s|s die|s k|s]; simpl.
  - unfold handle_join. destruct (gameStarted r); intros H; injection H as <- _; [exact Hinv|].
    simpl. rewrite defined_colors_app. simpl.
    destruct (chooseColor (map color (players r)) c) as [c'|] eqn:Hc; [|rewrite app_nil_r; exact Hinv].
    apply NoDup_app. split; [exact Hinv|]. split; [|apply NoDup_singleton].
    intros x Hx Hx'. apply list_elem_of_singleton in Hx'. subst x.
    apply (chooseColor_fresh _ _ _ Hc). apply defined_colors_In, list_elem_of_In, Hx.
  - unfold handle_ready. intros H; injection H as <- _. simpl.
    erewrite defined_colors_map; [exact Hinv|]. rewrite map_map. apply map_ext.
    intros q. destruct (String.eqb _ _); reflexivity.
  - unfold handle_start. destruct (gameStarted r); [intros H; injection H as <- _; exact Hinv|].
    destruct (length (players r) <? 2)%nat; [intros H; injection H as <- _; exact Hinv|].
    destruct (negb _); [intros H; injection H as <- _; exact Hinv|].
    destruct (_ !! 0%nat); [|discriminate]. intros H; injection H as <- _. exact Hinv.
  - unfold handle_roll. destruct (players r !! turnIndex r) as [p|] eqn:Hp; [|discriminate].
    destruct (String.eqb (id p) s) eqn:Hs; cbn [negb]; [|intros H; injection H as <- _; exact Hinv].
    apply String.eqb_eq in Hs. subst s. intros H.
    destruct (handle_roll_accepted r p die Hp) as (r2 & o2 & Hh & Hpl & _).
    unfold handle, handle_roll in Hh. rewrite Hp, String.eqb_refl in Hh. cbn [negb] in Hh.
    rewrite H in Hh. injection Hh as -> _. rewrite Hpl. exact Hinv.
  - intros H. destruct (handle_move_cases r s k r' outs H) as [->|Hc]; [exact Hinv|].
    destruct Hc as (p & ps1 & p1 & cap & fin & Hp & _ & Hpm & Hps & _).
    erewrite defined_colors_map; [exact Hinv|]. rewrite Hps.
    eapply performMove_colors; eauto.
  - unfold handle_close. intros H; injection H as <- _.
    destruct (_ <=? _)%nat; apply defined_colors_filter, Hinv.
Qed.

Lemma reachable_room_inv (r : Room) :
  reachable r -> board_inv r /\ sixes_inv r /\ colors_inv r.
Proof.
  induction 1 as [rid|r q r' outs Hr IH Hv Hh].
  - unfold board_inv, sixes_inv, colors_inv. simpl. split; [constructor|]. split; [lia|constructor].
  - destruct IH as (Hb & Hs & Hc). split; [|split].
    + eapply handle_board_inv; [apply reachable_roll_inv, Hr | exact Hb | exact Hh].
    + eapply handle_sixes_inv; eauto.
    + eapply handle_colors_inv; eauto.
Qed.

Lemma defined_colors_unique (l : list Player) (i j : nat) (p q : Player) (c : string) :
  NoDup (defined_colors l) -> l !! i = Some p -> l !! j = Some q ->
  color p = Some c -> color q = Some c -> i = j.
Proof.
  revert i j. induction l as [|x l IH]; intros i j Hnd Hi Hj Hp Hq; [discriminate|].
  assert (Hin : forall k y, l !! k = Some y -> color y = Some c -> In c (defined_colors l)).
  { intros k y Hk Hy. apply defined_colors_In, in_map_iff. exists y. split; [exact Hy|].
    apply list_elem_of_In. eapply list_elem_of_lookup_2; eauto. }
  simpl in Hnd. destruct i as [|i], j as [|j]; simpl in Hi, Hj.
  - reflexivity.
  - injection Hi as ->. rewrite Hp in Hnd. apply NoDup_cons in Hnd as [Hn _].
    exfalso. apply Hn, list_elem_of_In. eapply Hin; eauto.
  - injection Hj as ->. rewrite Hq in Hnd. apply NoDup_cons in Hnd as [Hn _].
    exfalso. apply Hn, list_elem_of_In. eapply Hin; eauto.
  - f_equal. eapply IH; eauto. destruct (color x); [apply NoDup_cons in Hnd as [_ Hnd]|]; exact Hnd.
Qed.

(** Every player of a reachable room holds exactly four tokens, each at home
    ([-1]) or on a square [0..57]. *)
Theorem reachable_positions_in_range (r : Room) (j : nat) (p : Player) :
  reachable r -> players r !! j = Some p ->
  length (positions p) = 4%nat /\
  forall (i : nat) (x : Z), positions p !! i = Some x -> x = -1 \/ 0 <= x <= 57.
Proof.
  intros Hr Hj. destruct (reachable_room_inv r Hr) as (Hb & _ & _).
  unfold board_inv in Hb. rewrite Forall_lookup in Hb. destruct (Hb j p Hj) as [Hl Hf].
  split; [exact Hl|]. intros i x Hx. rewrite Forall_lookup in Hf. exact (Hf i x Hx).
Qed.

Lemma reachable_positions_in_range_witness :
  (reachable (room_after session_bust) /\
   players (room_after session_bust) !! 0%nat = Some (mkPlayer "a" "A" (Some "red") true [6; -1; -1; -1])) /\
  length (positions (mkPlayer "a" "A" (Some "red") true [6; -1; -1; -1])) = 4%nat.
Proof.
  assert (Hr : reachable (room_after session_bust)).
  { apply room_after_reachable. repeat constructor; simpl; lia. }
  assert (Hl : players (room_after session_bust) !! 0%nat =
               Some (mkPlayer "a" "A" (Some "red") true [6; -1; -1; -1])) by (vm_compute; reflexivity).
  split; [split; assumption|].
  apply (reachable_positions_in_range _ _ _ Hr Hl).
Defined.

(** In a reachable room the count of consecutive sixes is at most 2: the
    third six resets it. *)
Theorem reachable_sixes_at_most_two (r : Room) :
  reachable r -> (consecutiveSixes r <= 2)%nat.
Proof. intros Hr. apply (reachable_room_inv r Hr). Qed.

Lemma reachable_sixes_at_most_two_witness :
  reachable (room_after session_extra_turn) /\
  (consecutiveSixes (room_after session_extra_turn) <= 2)%nat.
Proof.
  assert (Hr : reachable (room_after session_extra_turn)).
  { apply room_after_reachable. repeat constructor; simpl; lia. }
  split; [exact Hr|]. apply reachable_sixes_at_most_two, Hr.
Defined.

(** No two players of a reachable room share a defined color. *)
Theorem reachable_colors_distinct (r : Room) (i j : nat) (p q : Player) (c : string) :
  reachable r -> i <> j -> players r !! i = Some p -> players r !! j = Some q ->
  color p = Some c -> color q <> Some c.
Proof.
  intros Hr Hij Hi Hj Hp Hq. destruct (reachable_room_inv r Hr) as (_ & _ & Hc).
  apply Hij. exact (defined_colors_unique _ i j p q c Hc Hi Hj Hp Hq).
Qed.

Lemma reachable_colors_distinct_witness :
  (reachable (room_after session_four) /\ 0%nat <> 1%nat /\
   players (room_after session_four) !! 0%nat = Some (mkPlayer "a" "A" (Some "red") false [-1; -1; -1; -1]) /\
   players (room_after session_four) !! 1%nat = Some (mkPlayer "b" "B" (Some "green") false [-1; -1; -1; -1]) /\
   color (mkPlayer "a" "A" (Some "red") false [-1; -1; -1; -1]) = Some "red"%string) /\
  color (mkPlayer "b" "B" (Some "green") false [-1; -1; -1; -1]) <> Some "red"%string.
Proof.
  assert (Hr : reachable (room_after session_four)).
  { apply room_after_reachable. repeat constructor. }
  assert (Hij : 0%nat <> 1%nat) by lia.
  assert (H0 : players (room_after session_four) !! 0%nat =
               Some (mkPlayer "a" "A" (Some "red") false [-1; -1; -1; -1])) by (vm_compute; reflexivity).
  assert (H1 : players (room_after session_four) !! 1%nat =
               Some (mkPlayer "b" "B" (Some "green") false [-1; -1; -1; -1])) by (vm_compute; reflexivity).
  split; [repeat split; assumption|].
  exact (reachable_colors_distinct _ 0 1 _ _ "red" Hr Hij H0 H1 eq_refl).
Defined.

(** The stored roll of a reachable room is 0 (no roll yet) or a die value. *)
Theorem reachable_currentRoll_range (r : Room) :
  reachable r -> 0 <= currentRoll r <= 6.
Proof. intros Hr. apply (reachable_roll_inv r Hr). Qed.

Lemma reachable_currentRoll_range_witness :
  reachable (room_after session_bust) /\ 0 <= currentRoll (room_after session_bust) <= 6.
Proof.
  assert (Hr : reachable (room_after session_bust)).
  { apply room_after_reachable. repeat constructor; simpl; lia. }
  split; [exact Hr|]. apply reachable_currentRoll_range, Hr.
Defined.

(** ** Turn order *)

Lemma nextTurn_loop_spec (ps : list Player) (t : nat) (f m : nat) :
  length ps <> 0%nat ->
  let n := length ps in
  match nextTurn_loop ps ((t + m) mod n)%nat f with
  | Some i =>
      exists d p, (m <= d < m + f)%nat /\ i = ((t + d) mod n)%nat /\
        ps !! i = Some p /\ (finishedCount p < 4)%nat /\
        forall d' q, (m <= d' < d)%nat -> ps !! ((t + d') mod n)%nat = Some q -> (4 <= finishedCount q)%nat
  | None =>
      forall d' q, (m <= d' < m + f)%nat -> ps !! ((t + d') mod n)%nat = Some q -> (4 <= finishedCount q)%nat
  end.
Proof.
  intros Hn n. revert m. induction f as [|f IH]; intros m; simpl.
  - intros d' q Hd'. lia.
  - assert (Hlt : (((t + m) mod n) < length ps)%nat) by (apply Nat.mod_upper_bound; exact Hn).
    destruct (lookup_lt_is_Some_2 _ _ Hlt) as [p Hp]. rewrite Hp.
    destruct (finishedCount p <? 4)%nat eqn:E.
    + apply Nat.ltb_lt in E. exists m, p. repeat split; auto; try lia.
    + apply Nat.ltb_ge in E.
      replace (((t + m) mod n + 1) mod length ps)%nat with ((t + S m) mod n)%nat
        by (unfold n; rewrite Nat.Div0.add_mod_idemp_l; f_equal; lia).
      specialize (IH (S m)).
      destruct (nextTurn_loop ps ((t + S m) mod n) f) as [i|].
      * destruct IH as (d & p' & Hd & Hi & Hp' & Hf & Hbefore).
        exists d, p'. split; [lia|]. split; [exact Hi|]. split; [exact Hp'|]. split; [exact Hf|].
        intros d' q Hd' Hq. destruct (Nat.eq_dec d' m) as [->|Hne].
        -- rewrite Hp in Hq. injection Hq as <-. exact E.
        -- apply (Hbefore d' q); [lia|exact Hq].
      * intros d' q Hd' Hq. destruct (Nat.eq_dec d' m) as [->|Hne].
        -- rewrite Hp in Hq. injection Hq as <-. exact E.
        -- apply (IH d' q); [lia|exact Hq].
Qed.

Lemma mod_offset_onto (t j n : nat) :
  (j < n)%nat -> exists d, (1 <= d <= n)%nat /\ ((t + d) mod n)%nat = j.
Proof.
  intros Hj. assert (Hn : n <> 0%nat) by lia.
  pose proof (Nat.div_mod t n Hn) as Hdm. pose proof (Nat.mod_upper_bound t n Hn) as Hub.
  destruct (Nat.lt_ge_cases (t mod n) j) as [Ha|Ha].
  - exists (j - t mod n)%nat. split; [lia|].
    symmetry. apply (Nat.mod_unique _ _ (t / n) j); [exact Hj|lia].
  - exists (n - t mod n + j)%nat. split; [lia|].
    symmetry. apply (Nat.mod_unique _ _ (S (t / n)) j); [exact Hj|lia].
Qed.

(** [nextTurn] hands the turn to the first player after [turnIndex], going
    round the table, who has fewer than four tokens at 57; the players skipped
    on the way have all four there. If every player has finished, the index
    is kept. *)
Theorem nextTurn_first_active (r : Room) :
  players r <> [] ->
  let n := length (players r) in
  let t := turnIndex r in
  (exists d p, (1 <= d <= n)%nat /\ turnIndex (nextTurn r) = ((t + d) mod n)%nat /\
     players r !! turnIndex (nextTurn r) = Some p /\ (finishedCount p < 4)%nat /\
     forall d' q, (1 <= d' < d)%nat -> players r !! ((t + d') mod n)%nat = Some q ->
                  (4 <= finishedCount q)%nat) \/
  (turnIndex (nextTurn r) = t /\ forall q, In q (players r) -> (4 <= finishedCount q)%nat).
Proof.
  intros Hne. cbv zeta.
  assert (Hn : length (players r) <> 0%nat) by (destruct (players r); [contradiction|discriminate]).
  pose proof (nextTurn_loop_spec (players r) (turnIndex r) (length (players r)) 1 Hn) as Hs.
  cbv zeta in Hs.
  unfold nextTurn. replace (length (players r) =? 0)%nat with false by (symmetry; apply Nat.eqb_neq, Hn).
  destruct (nextTurn_loop (players r) ((turnIndex r + 1) mod length (players r)) (length (players r)))
    as [i|].
  - left. destruct Hs as (d & p & Hd & Hi & Hp & Hf & Hb). exists d, p. simpl.
    repeat split; auto; lia.
  - right. split; [reflexivity|]. intros q Hq.
    apply list_elem_of_In, list_elem_of_lookup_1 in Hq as [j Hj].
    destruct (mod_offset_onto (turnIndex r) j (length (players r))) as (d & Hd & Hdj);
      [eapply lookup_lt_Some; eauto|].
    apply (Hs d q); [lia|]. rewrite Hdj. exact Hj.
Qed.

(** Three seats; the second player has all four tokens at 57. *)
Definition room_skip : Room :=
  mkRoom "room" [mkPlayer "a" "A" (Some "red") true [1; -1; -1; -1];
                 mkPlayer "b" "B" (Some "green") true [57; 57; 57; 57];
                 mkPlayer "c" "C" (Some "yellow") true [-1; -1; -1; -1]]
         0 0 0 true.

Lemma nextTurn_first_active_witness :
  players room_skip <> [] /\ turnIndex (nextTurn room_skip) = 2%nat /\
  ((exists d p, (1 <= d <= 3)%nat /\ turnIndex (nextTurn room_skip) = ((0 + d) mod 3)%nat /\
     players room_skip !! turnIndex (nextTurn room_skip) = Some p /\ (finishedCount p < 4)%nat /\
     forall d' q, (1 <= d' < d)%nat -> players room_skip !! ((0 + d') mod 3)%nat = Some q ->
                  (4 <= finishedCount q)%nat) \/
   (turnIndex (nextTurn room_skip) = 0%nat /\
    forall q, In q (players room_skip) -> (4 <= finishedCount q)%nat)).
Proof.
  assert (Hne : players room_skip <> []) by discriminate.
  split; [exact Hne|]. split; [vm_compute; reflexivity|].
  exact (nextTurn_first_active room_skip Hne).
Defined.

(** ** Legal moves *)

Lemma movable_from_complete (i k : nat) (ps : list Z) (roll pos : Z) :
  ps !! k = Some pos -> token_movable pos roll = true -> In (i + k)%nat (movable_from i ps roll).
Proof.
  revert i k. induction ps as [|x ps IH]; intros i k Hk Hm; [discriminate|].
  simpl. destruct k as [|k]; simpl in Hk.
  - injection Hk as ->. rewrite Hm. left. lia.
  - replace (i + S k)%nat with (S i + k)%nat by lia.
    destruct (token_movable x roll); [right|]; apply IH; assumption.
Qed.

(** For a roll of at most 6, a token is listed as movable exactly when it is
    at home and the roll is a 6, or it is on the main track (the step into
    the final lane never overshoots), or it is in the final lane and the roll
    does not carry it past 57. *)
Theorem movable_token_rule (p : Player) (roll : Z) (i : nat) (pos : Z) :
  roll <= 6 -> positions p !! i = Some pos ->
  In i (computeMovableTokens p roll) <->
  (pos = -1 /\ roll = 6) \/ (pos <> -1 /\ pos <= 51) \/ (52 <= pos /\ pos + roll <= 57).
Proof.
  intros Hr Hi. unfold computeMovableTokens.
  assert (Hiff : In i (movable_from 0 (positions p) roll) <-> token_movable pos roll = true).
  { split.
    - intros Hin. destruct (movable_from_spec 0 i _ _ Hin) as (_ & pos' & Hl & Hm).
      rewrite Nat.sub_0_r, Hi in Hl. injection Hl as <-. exact Hm.
    - intros Hm. exact (movable_from_complete 0 i _ _ _ Hi Hm). }
  rewrite Hiff. unfold token_movable.
  destruct (pos =? -1) eqn:E1.
  - apply Z.eqb_eq in E1. rewrite Z.eqb_eq. lia.
  - apply Z.eqb_neq in E1. destruct (pos <? 52) eqn:E2.
    + apply Z.ltb_lt in E2. destruct (pos + roll <=? 51); [split; [lia|auto]|].
      rewrite Z.leb_le. lia.
    + apply Z.ltb_ge in E2. rewrite Z.leb_le. lia.
Qed.

Lemma movable_token_rule_witness :
  (6 <= 6 /\ positions (mkPlayer "a" "A" (Some "red") true [-1; 50; 53; 57]) !! 1%nat = Some 50) /\
  (In 1%nat (computeMovableTokens (mkPlayer "a" "A" (Some "red") true [-1; 50; 53; 57]) 6) <->
   (50 = -1 /\ 6 = 6) \/ (50 <> -1 /\ 50 <= 51) \/ (52 <= 50 /\ 50 + 6 <= 57)).
Proof.
  assert (Hr : 6 <= 6) by lia.
  assert (Hl : positions (mkPlayer "a" "A" (Some "red") true [-1; 50; 53; 57]) !! 1%nat = Some 50)
    by reflexivity.
  split; [split; assumption|]. exact (movable_token_rule _ 6 1 50 Hr Hl).
Defined.

(** ** What a move touches *)

Lemma other_after_lookup (d : Z) (p q : Player) (i : nat) (y : Z) :
  positions q !! i = Some y ->
  positions (other_after d p q) !! i = Some y \/
  (positions (other_after d p q) !! i = Some (-1) /\ id q <> id p /\ 0 <= y <= 51 /\ d <= 51 /\
   (exists g, computeGlobalIndex (color q) y = Some g /\ computeGlobalIndex (color p) d = Some g) /\
   safe_includes (computeGlobalIndex (color p) d) = false).
Proof.
  intros Hy. rewrite other_after_positions, lookup_map_option, Hy. cbn [option_map].
  destruct (d <=? 51) eqn:Ed; cbn [andb]; [|left; reflexivity].
  destruct (String.eqb (id q) (id p)) eqn:Eid; cbn [negb andb]; [left; reflexivity|].
  destruct (captures_at (color q) (computeGlobalIndex (color p) d) y) eqn:Ec; [|left; reflexivity].
  right. split; [reflexivity|]. apply String.eqb_neq in Eid. split; [exact Eid|].
  unfold captures_at in Ec. apply andb_prop in Ec as [Ec Hs]. apply andb_prop in Ec as [Ec Hg].
  apply andb_prop in Ec as [H0 H51]. apply Z.leb_le in H0, H51, Ed. apply negb_true_iff in Hs.
  repeat split; try lia; [|exact Hs].
  unfold num_eqb in Hg.
  destruct (computeGlobalIndex (color q) y) as [g1|], (computeGlobalIndex (color p) d) as [g2|];
    try discriminate. apply Z.eqb_eq in Hg. subst. eauto.
Qed.

(** An executed [performMove] puts the chosen token of the mover on its new
    square (0 from home, otherwise [pos + roll]) and leaves the mover's other
    tokens alone. Another seat keeps its player's id, name, color and ready
    flag and its number of tokens; each of its tokens either stays or is sent
    home, and only when it is an opponent's token on the main track sharing
    the (non-safe, main-track) destination's global index. *)
Theorem performMove_frame (ps : list Player) (t : nat) (p : Player) (k : nat) (roll pos : Z)
    (ps1 : list Player) (p1 : Player) (cap fin : bool) :
  ps !! t = Some p -> positions p !! k = Some pos ->
  performMove ps t p k roll = Some (ps1, p1, cap, fin) ->
  let newPos := if pos =? -1 then 0 else pos + roll in
  ps1 !! t = Some p1 /\ id p1 = id p /\ color p1 = color p /\
  positions p1 !! k = Some newPos /\
  (forall i : nat, i <> k -> positions p1 !! i = positions p !! i) /\
  (fin = true <-> newPos = 57) /\
  forall (j : nat) (q : Player), j <> t -> ps !! j = Some q ->
    exists q', ps1 !! j = Some q' /\ id q' = id q /\ name q' = name q /\ color q' = color q /\
      ready q' = ready q /\ length (positions q') = length (positions q) /\
      forall (i : nat) (y : Z), positions q !! i = Some y ->
        positions q' !! i = Some y \/
        (positions q' !! i = Some (-1) /\ id q <> id p /\ 0 <= y <= 51 /\ newPos <= 51 /\
         (exists g, computeGlobalIndex (color q) y = Some g /\ computeGlobalIndex (color p) newPos = Some g) /\
         safe_includes (computeGlobalIndex (color p) newPos) = false).
Proof.
  intros Ht Hk Hpm newPos.
  destruct (performMove_lookup ps t p k roll pos ps1 p1 cap fin Ht Hk Hpm) as [_ Hl].
  destruct (performMove_shape ps t p k roll pos ps1 p1 cap fin Hk Hpm) as (_ & Hp1 & Hfin & _).
  assert (Hd : destination pos roll = newPos) by (unfold newPos; apply destination_spec).
  rewrite Hd in Hp1, Hfin, Hl.
  split; [rewrite Hl; destruct (decide (t = t)); [reflexivity|contradiction]|].
  rewrite Hp1. cbn [id color positions set_positions]. split; [reflexivity|]. split; [reflexivity|].
  split; [apply list_lookup_insert_eq; eapply lookup_lt_Some; eauto|].
  split; [intros i Hi; apply list_lookup_insert_ne; congruence|].
  split; [rewrite Hfin; apply bool_decide_eq_true|].
  intros j q Hj Hq. exists (other_after newPos p q). rewrite Hl.
  destruct (decide (j = t)) as [|_]; [contradiction|]. rewrite Hq.
  destruct (other_after_fields newPos p q) as (Hid & Hn & Hc & Hr).
  split; [reflexivity|]. do 4 (split; [assumption|]).
  split; [rewrite other_after_positions, length_map; reflexivity|].
  intros i y Hy. exact (other_after_lookup newPos p q i y Hy).
Qed.

Lemma performMove_frame_witness :
  (([red_a [3; -1; -1; -1]; green_b [46; 5; -1; -1]] !! 0%nat = Some (red_a [3; -1; -1; -1]) /\
    positions (red_a [3; -1; -1; -1]) !! 0%nat = Some 3) /\
   performMove [red_a [3; -1; -1; -1]; green_b [46; 5; -1; -1]] 0 (red_a [3; -1; -1; -1]) 0 4 =
     Some ([red_a [7; -1; -1; -1]; green_b [-1; 5; -1; -1]], red_a [7; -1; -1; -1], true, false)) /\
  positions (red_a [7; -1; -1; -1]) !! 0%nat = Some 7.
Proof.
  assert (H1 : [red_a [3; -1; -1; -1]; green_b [46; 5; -1; -1]] !! 0%nat = Some (red_a [3; -1; -1; -1]))
    by reflexivity.
  assert (H2 : positions (red_a [3; -1; -1; -1]) !! 0%nat = Some 3) by reflexivity.
  assert (H3 : performMove [red_a [3; -1; -1; -1]; green_b [46; 5; -1; -1]] 0 (red_a [3; -1; -1; -1]) 0 4 =
     Some ([red_a [7; -1; -1; -1]; green_b [-1; 5; -1; -1]], red_a [7; -1; -1; -1], true, false))
    by (vm_compute; reflexivity).
  split; [split; [split; assumption | exact H3]|].
  destruct (performMove_frame _ _ _ _ _ _ _ _ _ _ H1 H2 H3) as (_ & _ & _ & Hk & _).
  exact Hk.
Defined.

Lemma num_eqb_None_r (x : jsnum) : num_eqb x None = false.
Proof. destruct x; reflexivity. Qed.

(** A token leaving home lands on its color's start square, which is safe (or,
    for a player without a color, has no global index): the move captures
    nothing and leaves every other seat as it was. *)
Theorem entry_move_captures_nothing (ps : list Player) (t : nat) (p : Player) (k : nat) (roll : Z)
    (ps1 : list Player) (p1 : Player) (cap fin : bool) :
  ps !! t = Some p -> positions p !! k = Some (-1) ->
  performMove ps t p k roll = Some (ps1, p1, cap, fin) ->
  cap = false /\ fin = false /\ positions p1 !! k = Some 0 /\
  forall j : nat, j <> t -> ps1 !! j = ps !! j.
Proof.
  intros Ht Hk Hpm.
  destruct (performMove_lookup ps t p k roll (-1) ps1 p1 cap fin Ht Hk Hpm) as [_ Hl].
  destruct (performMove_shape ps t p k roll (-1) ps1 p1 cap fin Hk Hpm) as (_ & Hp1 & Hfin & Hcap).
  assert (Hd : destination (-1) roll = 0) by reflexivity. rewrite Hd in Hp1, Hfin, Hl, Hcap.
  assert (Hno : forall q y, captures_at (color q) (computeGlobalIndex (color p) 0) y = false).
  { intros q y. unfold captures_at. unfold computeGlobalIndex. cbn -[COLOR_START].
    destruct (COLOR_START (color p)) as [st|] eqn:Hs.
    - assert (Hsafe : safe_includes (Some ((st + 0) mod 52)) = true).
      { destruct (color p) as [c|]; [|discriminate].
        unfold COLOR_START in Hs.
        repeat match type of Hs with
               | context [match ?x with _ => _ end] => destruct x
               end; try discriminate; injection Hs as <-; reflexivity. }
      rewrite Hsafe. apply andb_false_r.
    - rewrite num_eqb_None_r, andb_false_r. reflexivity. }
  assert (Hid : forall q, other_after 0 p q = q).
  { intros q. unfold other_after, capture_player. simpl.
    destruct (String.eqb (id q) (id p)); [reflexivity|].
    rewrite map_ext_id by (intros x _; rewrite Hno; reflexivity).
    rewrite set_positions_id. reflexivity. }
  split.
  - rewrite Hcap. cbn [Z.leb]. simpl (0 <=? 51). cbn [andb].
    apply existsb_snd_all_false. intros q. unfold capture_player.
    destruct (String.eqb (id q) (id p)); [reflexivity|]. simpl.
    induction (positions q) as [|x l IH]; simpl; [reflexivity|]. rewrite Hno. exact IH.
  - split; [rewrite Hfin; apply bool_decide_eq_false; discriminate|].
    split; [rewrite Hp1; apply list_lookup_insert_eq; eapply lookup_lt_Some; eauto|].
    intros j Hj. rewrite Hl. destruct (decide (j = t)); [contradiction|].
    destruct (ps !! j); simpl; [rewrite Hid|]; reflexivity.
Qed.

Lemma entry_move_captures_nothing_witness :
  (([red_a [-1; -1; -1; -1]; green_b [38; -1; -1; -1]] !! 0%nat = Some (red_a [-1; -1; -1; -1]) /\
    positions (red_a [-1; -1; -1; -1]) !! 0%nat = Some (-1)) /\
   performMove [red_a [-1; -1; -1; -1]; green_b [38; -1; -1; -1]] 0 (red_a [-1; -1; -1; -1]) 0 6 =
     Some ([red_a [0; -1; -1; -1]; green_b [38; -1; -1; -1]], red_a [0; -1; -1; -1], false, false)) /\
  false = false.
Proof.
  assert (H1 : [red_a [-1; -1; -1; -1]; green_b [38; -1; -1; -1]] !! 0%nat = Some (red_a [-1; -1; -1; -1]))
    by reflexivity.
  assert (H2 : positions (red_a [-1; -1; -1; -1]) !! 0%nat = Some (-1)) by reflexivity.
  assert (H3 : performMove [red_a [-1; -1; -1; -1]; green_b [38; -1; -1; -1]] 0 (red_a [-1; -1; -1; -1]) 0 6 =
     Some ([red_a [0; -1; -1; -1]; green_b [38; -1; -1; -1]], red_a [0; -1; -1; -1], false, false))
    by (vm_compute; reflexivity).
  split; [split; [split; assumption | exact H3]|].
  destruct (entry_move_captures_nothing _ _ _ _ _ _ _ _ _ H1 H2 H3) as (Hc & _). exact Hc.
Defined.

(** ** Global board indices *)

(** For the four colors, a final-lane square ([52..57]) has a global index
    that no other square of any color shares: the offset [100 + colorOffset]
    keeps final lanes apart from the main track and from each other. *)
Theorem final_lane_index_unique (c1 c2 : option string) (pos1 pos2 : Z) :
  In c1 (map Some COLORS) -> In c2 (map Some COLORS) ->
  52 <= pos1 <= 57 -> 0 <= pos2 <= 57 ->
  computeGlobalIndex c1 pos1 = computeGlobalIndex c2 pos2 -> c1 = c2 /\ pos1 = pos2.
Proof.
  intros H1 H2 Hp1 Hp2. unfold computeGlobalIndex.
  replace (pos1 <? 0) with false by (symmetry; apply Z.ltb_ge; lia).
  replace (pos1 <=? 51) with false by (symmetry; apply Z.leb_gt; lia).
  replace (pos2 <? 0) with false by (symmetry; apply Z.ltb_ge; lia).
  simpl in H1, H2.
  destruct (pos2 <=? 51) eqn:E2.
  - intros Heq. exfalso.
    destruct H1 as [<-|[<-|[<-|[<-|[]]]]]; destruct H2 as [<-|[<-|[<-|[<-|[]]]]];
      cbv [COLOR_START colorOffset] in Heq; injection Heq as Heq;
      match type of Heq with
      | _ = (?a + pos2) mod 52 => pose proof (Z.mod_pos_bound (a + pos2) 52 ltac:(lia))
      end; lia.
  - apply Z.leb_gt in E2. intros Heq.
    destruct H1 as [<-|[<-|[<-|[<-|[]]]]]; destruct H2 as [<-|[<-|[<-|[<-|[]]]]];
      cbv [COLOR_START colorOffset] in Heq; injection Heq as Heq; split; (reflexivity || lia).
Qed.

Lemma final_lane_index_unique_witness :
  (In (Some "green"%string) (map Some COLORS) /\ In (Some "green"%string) (map Some COLORS) /\
   52 <= 55 <= 57 /\ 0 <= 55 <= 57 /\
   computeGlobalIndex (Some "green"%string) 55 = computeGlobalIndex (Some "green"%string) 55) /\
  Some "green"%string = Some "green"%string /\ 55 = 55.
Proof.
  assert (H1 : In (Some "green"%string) (map Some COLORS)) by (simpl; auto).
  assert (H2 : 52 <= 55 <= 57) by lia. assert (H3 : 0 <= 55 <= 57) by lia.
  split; [repeat split; auto; lia|].
  exact (final_lane_index_unique _ _ 55 55 H1 H1 H2 H3 eq_refl).
Defined.

(** ** Starting the game *)

Lemma forallb_false_exists {A : Type} (f : A -> bool) (l : list A) :
  forallb f l = false -> exists x, In x l /\ f x = false.
Proof.
  induction l as [|x l IH]; simpl; [discriminate|].
  destruct (f x) eqn:Ex; simpl; intros H.
  - destruct (IH H) as (y & Hy & Hf). eauto.
  - eauto.
Qed.

(** A [start] request, from any member of the room, never throws. It starts
    the game exactly when the game has not started, there are at least two
    players and all are ready: the turn goes to seat 0 with no roll and no
    sixes, the roster is untouched and [game_started] is broadcast with the
    first player's id. Otherwise the room is unchanged and nothing is
    broadcast. *)
Theorem start_rule (r : Room) (s : string) :
  exists r' outs, handle r (ReqStart s) = Some (r', outs) /\
  ((gameStarted r = false /\ (2 <= length (players r))%nat /\ all_ready (players r) /\
    gameStarted r' = true /\ turnIndex r' = 0%nat /\ currentRoll r' = 0 /\
    consecutiveSixes r' = 0%nat /\ players r' = players r /\
    exists p0, players r !! 0%nat = Some p0 /\
      outs = [Broadcast (GameStarted (id p0) (map (fun p => (id p, positions p)) (players r)))]) \/
   (r' = r /\ Forall (fun o => forall m, o <> Broadcast m) outs /\
    (gameStarted r = true \/ (length (players r) < 2)%nat \/
     exists p, In p (players r) /\ ready p = false))).
Proof.
  unfold handle, handle_start.
  destruct (gameStarted r) eqn:Hg.
  { eexists _, _. split; [reflexivity|]. right. split; [reflexivity|]. split; [constructor|auto]. }
  destruct (length (players r) <? 2)%nat eqn:Hl.
  { eexists _, _. split; [reflexivity|]. right. split; [reflexivity|].
    split; [repeat constructor; discriminate|]. right; left. apply Nat.ltb_lt, Hl. }
  destruct (forallb ready (players r)) eqn:Hr; cbn [negb].
  - apply Nat.ltb_ge in Hl. simpl.
    destruct (players r) as [|p0 rest] eqn:Hps; [simpl in Hl; lia|].
    eexists _, _. split; [reflexivity|]. left. split; [reflexivity|]. split; [exact Hl|].
    split.
    + unfold all_ready. apply Forall_forall. intros x Hx.
      apply forallb_forall with (x := x) in Hr; [exact Hr|]. apply list_elem_of_In, Hx.
    + do 4 (split; [reflexivity|]). split; [exact Hps|].
      exists p0. split; reflexivity.
  - eexists _, _. split; [reflexivity|]. right. split; [reflexivity|].
    split; [repeat constructor; discriminate|]. right; right.
    apply forallb_false_exists, Hr.
Qed.

(** ** Rolling without a legal move *)

(** When the player on turn rolls a value with no legal move, the turn passes
    by [nextTurn] and [turn] is broadcast after [roll_result]; the rolled
    value stays stored as [currentRoll] for the next player, and the sixes
    count is the one the roll left (0 after a non-six or a third six). *)
Theorem roll_without_moves_passes (r : Room) (p : Player) (die : Z) :
  players r !! turnIndex r = Some p -> computeMovableTokens p die = [] ->
  exists r' q,
    handle r (ReqRoll (id p) die) =
      Some (r', [Broadcast (RollResult (id p) die []); Broadcast (TurnMsg (id q))]) /\
    players r' = players r /\ turnIndex r' = turnIndex (nextTurn r) /\
    players r' !! turnIndex r' = Some q /\ currentRoll r' = die /\
    consecutiveSixes r' =
      (if die =? 6 then (if (3 <=? S (consecutiveSixes r))%nat then 0%nat else S (consecutiveSixes r))
       else 0%nat).
Proof.
  intros Hp Hm.
  destruct (handle_roll_accepted r p die Hp) as (r' & outs & Hh & Hpl & Hcr & Hcs & _ & Hti & _ & Hpass).
  rewrite Hm in Hti, Hpass. rewrite orb_true_r in Hti, Hpass.
  destruct (Hpass eq_refl) as (q & Hq & Ho). subst outs.
  exists r', q. split; [exact Hh|]. split; [exact Hpl|]. split; [exact Hti|].
  split; [exact Hq|]. split; [exact Hcr|].
  rewrite Hcs. destruct (die =? 6); reflexivity.
Qed.

(** Two players, all tokens at home, before any roll. *)
Definition room_home : Room :=
  mkRoom "room" [mkPlayer "a" "A" (Some "red") true [-1; -1; -1; -1];
                 mkPlayer "b" "B" (Some "green") true [-1; -1; -1; -1]]
         0 0 0 true.

Lemma roll_without_moves_passes_witness :
  (players room_home !! turnIndex room_home = Some (mkPlayer "a" "A" (Some "red") true [-1; -1; -1; -1]) /\
   computeMovableTokens (mkPlayer "a" "A" (Some "red") true [-1; -1; -1; -1]) 3 = []) /\
  exists r' q,
    handle room_home (ReqRoll "a" 3) =
      Some (r', [Broadcast (RollResult "a" 3 []); Broadcast (TurnMsg (id q))]) /\
    currentRoll r' = 3.
Proof.
  assert (Hp : players room_home !! turnIndex room_home =
               Some (mkPlayer "a" "A" (Some "red") true [-1; -1; -1; -1])) by reflexivity.
  assert (Hm : computeMovableTokens (mkPlayer "a" "A" (Some "red") true [-1; -1; -1; -1]) 3 = [])
    by reflexivity.
  split; [split; [exact Hp | exact Hm]|].
  destruct (roll_without_moves_passes room_home _ 3 Hp Hm) as (r' & q & Hh & _ & _ & _ & Hc & _).
  exists r', q. split; [exact Hh | exact Hc].
Defined.

(** ** Leaving the room *)

Lemma map_ext_id_filter {A : Type} (f : A -> bool) (l : list A) :
  (forall x, In x l -> f x = true) -> List.filter f l = l.
Proof.
  induction l as [|x l IH]; intros H; simpl; [reflexivity|].
  rewrite H by (left; reflexivity). rewrite IH; [reflexivity|]. intros y Hy. apply H. right; exact Hy.
Qed.

Lemma filter_unique_id (ps : list Player) (t : nat) (p : Player) :
  NoDup (map id ps) -> ps !! t = Some p ->
  List.filter (fun q => negb (String.eqb (id q) (id p))) ps = take t ps ++ drop (S t) ps.
Proof.
  revert t. induction ps as [|x ps IH]; intros t Hnd Ht; [discriminate|].
  simpl in Hnd. apply NoDup_cons in Hnd as [Hn Hnd].
  assert (Hall : forall y, In y ps -> id y <> id x).
  { intros y Hy Heq. apply Hn. rewrite <- Heq. apply list_elem_of_In, in_map, Hy. }
  destruct t as [|t]; simpl in Ht.
  - injection Ht as <-. simpl. rewrite String.eqb_refl. simpl.
    rewrite drop_0. apply map_ext_id_filter. intros y Hy. apply negb_true_iff, String.eqb_neq, Hall, Hy.
  - simpl. assert (Hx : id x <> id p).
    { intros Heq. apply Hn. rewrite Heq. apply list_elem_of_In, in_map.
      apply list_elem_of_In. eapply list_elem_of_lookup_2; eauto. }
    apply String.eqb_neq in Hx. rewrite Hx. simpl. f_equal. apply IH; assumption.
Qed.

(** When the player on turn leaves (player ids being distinct), the seat is
    removed and the index is kept: the turn goes to the next seat, or to
    seat 0 when the leaver sat last, or to no one when the room is empty.
    The stored roll and sixes count stay, and only [player_list] is
    broadcast, no [turn] message. *)
Theorem close_active_player_turn (r : Room) (p : Player) :
  NoDup (map id (players r)) -> players r !! turnIndex r = Some p ->
  let ps := players r in
  let t := turnIndex r in
  exists r' outs, handle r (ReqClose (id p)) = Some (r', outs) /\
    players r' = take t ps ++ drop (S t) ps /\
    currentRoll r' = currentRoll r /\ consecutiveSixes r' = consecutiveSixes r /\
    players r' !! turnIndex r' =
      (if (S t <? length ps)%nat then ps !! S t else if (t =? 0)%nat then None else ps !! 0%nat) /\
    outs = [Broadcast (PlayerList (map player_info (players r')))].
Proof.
  intros Hnd Ht ps t.
  assert (Hlt : (t < length ps)%nat) by (eapply lookup_lt_Some; eauto).
  assert (Hf := filter_unique_id ps t p Hnd Ht).
  assert (Hlen : length (take t ps ++ drop (S t) ps) = (length ps - 1)%nat)
    by (rewrite length_app, length_take, length_drop; lia).
  unfold handle, handle_close. cbn [players set_players turnIndex]. fold ps. fold t. rewrite Hf, Hlen.
  destruct (length ps - 1 <=? t)%nat eqn:E.
  - apply Nat.leb_le in E. eexists _, _. split; [reflexivity|].
    cbn [players set_players set_turnIndex turnIndex currentRoll consecutiveSixes].
    split; [reflexivity|]. split; [reflexivity|]. split; [reflexivity|]. split; [|reflexivity].
    replace (S t <? length ps)%nat with false by (symmetry; apply Nat.ltb_ge; lia).
    destruct (t =? 0)%nat eqn:E0.
    + apply Nat.eqb_eq in E0. rewrite E0, take_0. simpl.
      apply lookup_ge_None_2. rewrite length_drop. lia.
    + apply Nat.eqb_neq in E0. rewrite lookup_app_l by (rewrite length_take; lia).
      rewrite lookup_take. destruct (decide (0 < t)%nat); [reflexivity|lia].
  - apply Nat.leb_gt in E. eexists _, _. split; [reflexivity|].
    cbn [players set_players turnIndex currentRoll consecutiveSixes].
    split; [reflexivity|]. split; [reflexivity|]. split; [reflexivity|]. split; [|reflexivity].
    replace (S t <? length ps)%nat with true by (symmetry; apply Nat.ltb_lt; lia).
    rewrite lookup_app_r by (rewrite length_take; lia). rewrite length_take.
    rewrite lookup_drop. f_equal. lia.
Qed.

(** Three seats, [b] on turn. *)
Definition room_three : Room :=
  mkRoom "room" [mkPlayer "a" "A" (Some "red") true [-1; -1; -1; -1];
                 mkPlayer "b" "B" (Some "green") true [-1; -1; -1; -1];
                 mkPlayer "c" "C" (Some "yellow") true [-1; -1; -1; -1]]
         1 4 0 true.

Lemma close_active_player_turn_witness :
  (NoDup (map id (players room_three)) /\
   players room_three !! turnIndex room_three = Some (mkPlayer "b" "B" (Some "green") true [-1; -1; -1; -1])) /\
  exists r' outs, handle room_three (ReqClose "b") = Some (r', outs) /\
    players r' !! turnIndex r' = Some (mkPlayer "c" "C" (Some "yellow") true [-1; -1; -1; -1]).
Proof.
  assert (Hnd : NoDup (map id (players room_three))) by (vm_compute; apply NoDup_ListNoDup; repeat constructor; simpl; intuition discriminate).
  assert (Ht : players room_three !! turnIndex room_three =
               Some (mkPlayer "b" "B" (Some "green") true [-1; -1; -1; -1])) by reflexivity.
  split; [split; assumption|].
  destruct (close_active_player_turn room_three _ Hnd Ht) as (r' & outs & Hh & _ & _ & _ & Hq & _).
  exists r', outs. split; [exact Hh|]. rewrite Hq. reflexivity.
Defined.

(** ** The room registry *)

(** The [rooms] map of the server, keyed by room id. *)
Abbreviation Rooms := (gmap string Room).

(** [getRoom(roomId)]: registers a fresh room on a missing key, then returns
    the registered room. *)
Definition getRoom (roomId : string) (rooms : Rooms) : Room * Rooms :=
  let rooms' := match rooms !! roomId with
                | Some _ => rooms
                | None => <[roomId := createRoom roomId]> rooms
                end in
  match rooms' !! roomId with
  | Some r => (r, rooms')
  | None => (createRoom roomId, rooms')
  end.

(** [getRoom] returns the room registered under the key when there is one,
    and otherwise registers and returns an empty, unstarted room with that id;
    other keys are untouched, and a second call with the same key returns the
    same room without changing the registry. *)
Theorem getRoom_spec (roomId : string) (rooms : Rooms) :
  let '(r, rooms') := getRoom roomId rooms in
  rooms' !! roomId = Some r /\
  (forall k, k <> roomId -> rooms' !! k = rooms !! k) /\
  (rooms !! roomId = Some r \/ (rooms !! roomId = None /\ r = createRoom roomId)) /\
  getRoom roomId rooms' = (r, rooms').
Proof.
  unfold getRoom. cbv zeta. destruct (rooms !! roomId) as [r0|] eqn:E.
  - rewrite !E. split; [reflexivity|]. split; [reflexivity|]. split; [left; reflexivity|].
    reflexivity.
  - rewrite !lookup_insert_eq.
    split; [reflexivity|]. split; [intros k Hk; apply lookup_insert_ne; congruence|].
    split; [right; split; reflexivity|]. reflexivity.
Qed.

(** ** Rolling with a legal move *)

(** When the player on turn rolls a value that gives a legal move and is not
    a third six in a row, only [roll_result] is broadcast: the player keeps
    the turn, the roll is stored and the sixes count goes up on a six and
    back to 0 otherwise; the roster is untouched. *)
Theorem roll_with_moves_keeps_turn (r : Room) (p : Player) (die : Z) :
  players r !! turnIndex r = Some p -> computeMovableTokens p die <> [] ->
  (die = 6 -> (consecutiveSixes r < 2)%nat) ->
  handle r (ReqRoll (id p) die) =
    Some (set_consecutiveSixes (if die =? 6 then S (consecutiveSixes r) else 0%nat)
            (set_currentRoll die r),
          [Broadcast (RollResult (id p) die (computeMovableTokens p die))]).
Proof.
  intros Hp Hm H6. unfold handle, handle_roll. rewrite Hp, String.eqb_refl. cbn [negb].
  destruct (computeMovableTokens p die) as [|m ms] eqn:Em; [contradiction|].
  destruct (die =? 6) eqn:Ed.
  - apply Z.eqb_eq in Ed. specialize (H6 Ed).
    replace (3 <=? S (consecutiveSixes r))%nat with false by (symmetry; apply Nat.leb_gt; lia).
    reflexivity.
  - reflexivity.
Qed.

Lemma roll_with_moves_keeps_turn_witness :
  (players room_home !! turnIndex room_home = Some (mkPlayer "a" "A" (Some "red") true [-1; -1; -1; -1]) /\
   computeMovableTokens (mkPlayer "a" "A" (Some "red") true [-1; -1; -1; -1]) 6 <> [] /\
   (6 = 6 -> (consecutiveSixes room_home < 2)%nat)) /\
  handle room_home (ReqRoll "a" 6) =
    Some (set_consecutiveSixes 1 (set_currentRoll 6 room_home),
          [Broadcast (RollResult "a" 6 [0; 1; 2; 3]%nat)]).
Proof.
  assert (Hp : players room_home !! turnIndex room_home =
               Some (mkPlayer "a" "A" (Some "red") true [-1; -1; -1; -1])) by reflexivity.
  assert (Hm : computeMovableTokens (mkPlayer "a" "A" (Some "red") true [-1; -1; -1; -1]) 6 <> [])
    by discriminate.
  assert (H6 : 6 = 6 -> (consecutiveSixes room_home < 2)%nat) by (intros _; simpl; lia).
  split; [split; [exact Hp | split; assumption]|].
  exact (roll_with_moves_keeps_turn room_home _ 6 Hp Hm H6).
Defined.

Lemma finished_token_stays_witness :
  exists r' outs,
    (reachable (room_after session_finish) /\ valid_request (ReqMove "a" 0) /\
     handle (room_after session_finish) (ReqMove "a" 0) = Some (r', outs)) /\
    players (room_after session_finish) !! 0%nat =
      Some (mkPlayer "a" "A" (Some "red") true [57; -1; -1; -1]) /\
    forall p', In p' (players r') -> id p' = "a"%string -> positions p' !! 0%nat = Some 57.
Proof.
  assert (Hr : reachable (room_after session_finish)).
  { apply room_after_reachable.
    cbv [session_finish session_extra_turn session_start a_step_five concat repeat app].
    repeat constructor; lia. }
  assert (Hv : valid_request (ReqMove "a" 0)) by exact I.
  assert (Hps : players (room_after session_finish) =
                [mkPlayer "a" "A" (Some "red") true [57; -1; -1; -1];
                 mkPlayer "b" "B" (Some "green") true [-1; -1; -1; -1]]) by (vm_compute; reflexivity).
  destruct (handle (room_after session_finish) (ReqMove "a" 0)) as [[r' outs]|] eqn:Hh;
    [|vm_compute in Hh; discriminate].
  exists r', outs. split; [split; [exact Hr | split; [exact Hv | reflexivity]]|].
  split; [rewrite Hps; reflexivity|].
  intros p' Hin Hid.
  destruct (finished_token_stays _ _ _ _ Hr Hv Hh p' Hin) as [(nm & c & Hq & _)|(p & Hp & Hpid & Hk)];
    [discriminate|].
  rewrite Hps in Hp. destruct Hp as [<-|[<-|[]]]; [|rewrite Hid in Hpid; discriminate].
  apply Hk. reflexivity.
Defined.

(** In a reachable room whose game has started every seated player is ready:
    [start] requires it, later joins are refused, and no handler clears the
    flag. *)
Theorem reachable_started_all_ready (r : Room) (p : Player) :
  reachable r -> gameStarted r = true -> In p (players r) -> ready p = true.
Proof.
  intros Hr Hg Hin. pose proof (reachable_ready_inv r Hr Hg) as Hall.
  unfold all_ready in Hall. rewrite Forall_forall in Hall. apply Hall, list_elem_of_In, Hin.
Qed.

Lemma reachable_started_all_ready_witness :
  (reachable (room_after session_start) /\ gameStarted (room_after session_start) = true /\
   In (mkPlayer "b" "B" (Some "green") true [-1; -1; -1; -1]) (players (room_after session_start))) /\
  ready (mkPlayer "b" "B" (Some "green") true [-1; -1; -1; -1]) = true.
Proof.
  assert (Hr : reachable (room_after session_start)).
  { apply room_after_reachable. repeat constructor. }
  assert (Hg : gameStarted (room_after session_start) = true) by (vm_compute; reflexivity).
  assert (Hin : In (mkPlayer "b" "B" (Some "green") true [-1; -1; -1; -1]) (players (room_after session_start))).
  { assert (E : players (room_after session_start) =
                [mkPlayer "a" "A" (Some "red") true [-1; -1; -1; -1];
                 mkPlayer "b" "B" (Some "green") true [-1; -1; -1; -1]]) by (vm_compute; reflexivity).
    rewrite E. right; left; reflexivity. }
  split; [split; [exact Hr | split; assumption]|].
  exact (reachable_started_all_ready _ _ Hr Hg Hin).
Defined.
